(** * Pong: a shallow embedding of [script.js] and its simulation step

    The game keeps all of its state in variables of one closure: two flags
    ([paused], [gameOver]), two paddle objects, one ball object, two score
    counters, the held-key table, and the page elements it writes to.  The
    embedding threads that state explicitly through every function.

    Numbers.  JavaScript numbers are idealised as real numbers: [Math.cos],
    [Math.sin], [Math.hypot], [Math.max], [Math.min], [Math.abs] are the
    functions of [Stdlib.Reals].  Rounding, infinities and NaN are outside
    the model.  The two score counters start at 0 and are only ever
    incremented or zeroed, so they are natural numbers.

    Randomness.  [Math.random()] is a stream of future draws carried in the
    state; a call returns the head of the stream and advances it.

    Host.  [WIDTH] and [HEIGHT] are read from the canvas element, which is
    not part of the script: they are parameters of the development.  The
    host's frame scheduling ([requestAnimationFrame]) and the drawing
    routine, which only reads the state, are not represented: an animation
    frame is the event that runs [loop]. *)

From Stdlib Require Import Reals ZArith Lra Lia Bool String List.
Import ListNotations.

Open Scope R_scope.

(** ** Numeric helpers *)

Definition Rltb (a b : R) : bool := if Rlt_dec a b then true else false.
Definition Rleb (a b : R) : bool := if Rle_dec a b then true else false.

(** [Math.sign] *)
Definition Math_sign (v : R) : R :=
  if Rlt_dec 0 v then 1 else if Rlt_dec v 0 then -1 else 0.

(** [Math.hypot] on two arguments *)
Definition Math_hypot (a b : R) : R := sqrt (a * a + b * b).

(** [clamp(v, a, b) = Math.max(a, Math.min(b, v))] *)
Definition clamp (v a b : R) : R := Rmax a (Rmin b v).

(** ** Entities *)

Module Paddle.
Record t := mk {
  x : R;
  y : R;
  width : R;
  height : R;
  dy : R;
  maxSpeed : option R   (* only the right paddle has the property *)
}.
Definition set_y (v : R) (p : t) : t :=
  mk (x p) v (width p) (height p) (dy p) (maxSpeed p).
End Paddle.

Module Ball.
Record t := mk {
  x : R;
  y : R;
  radius : R;
  speed : R;
  vx : R;
  vy : R
}.
Definition set_x (v : R) (b : t) : t := mk v (y b) (radius b) (speed b) (vx b) (vy b).
Definition set_y (v : R) (b : t) : t := mk (x b) v (radius b) (speed b) (vx b) (vy b).
Definition set_speed (v : R) (b : t) : t := mk (x b) (y b) (radius b) v (vx b) (vy b).
Definition set_vx (v : R) (b : t) : t := mk (x b) (y b) (radius b) (speed b) v (vy b).
Definition set_vy (v : R) (b : t) : t := mk (x b) (y b) (radius b) (speed b) (vx b) v.
End Ball.

(** The [keys] table. *)
Record Keys := mkKeys {
  ArrowUp : bool;
  ArrowDown : bool
}.

(** The message element: its [hidden] class and its text. *)
Record Message := mkMessage {
  hidden : bool;
  textContent : string
}.

(** Which paddle object a function was handed ([paddle === leftPaddle]). *)
Inductive Side := LeftSide | RightSide.

(** ** The closure's state *)

Record Game := mkGame {
  paused : bool;
  gameOver : bool;
  leftPaddle : Paddle.t;
  rightPaddle : Paddle.t;
  ball : Ball.t;
  playerScore : nat;
  computerScore : nat;
  keys : Keys;
  messageEl : Message;
  playerScoreEl : nat;
  computerScoreEl : nat;
  random : nat -> R       (* the draws Math.random() will return, in order *)
}.

Definition set_paused (v : bool) (s : Game) : Game :=
  mkGame v (gameOver s) (leftPaddle s) (rightPaddle s) (ball s) (playerScore s)
         (computerScore s) (keys s) (messageEl s) (playerScoreEl s)
         (computerScoreEl s) (random s).
Definition set_gameOver (v : bool) (s : Game) : Game :=
  mkGame (paused s) v (leftPaddle s) (rightPaddle s) (ball s) (playerScore s)
         (computerScore s) (keys s) (messageEl s) (playerScoreEl s)
         (computerScoreEl s) (random s).
Definition set_leftPaddle (v : Paddle.t) (s : Game) : Game :=
  mkGame (paused s) (gameOver s) v (rightPaddle s) (ball s) (playerScore s)
         (computerScore s) (keys s) (messageEl s) (playerScoreEl s)
         (computerScoreEl s) (random s).
Definition set_rightPaddle (v : Paddle.t) (s : Game) : Game :=
  mkGame (paused s) (gameOver s) (leftPaddle s) v (ball s) (playerScore s)
         (computerScore s) (keys s) (messageEl s) (playerScoreEl s)
         (computerScoreEl s) (random s).
Definition set_ball (v : Ball.t) (s : Game) : Game :=
  mkGame (paused s) (gameOver s) (leftPaddle s) (rightPaddle s) v (playerScore s)
         (computerScore s) (keys s) (messageEl s) (playerScoreEl s)
         (computerScoreEl s) (random s).
Definition set_playerScore (v : nat) (s : Game) : Game :=
  mkGame (paused s) (gameOver s) (leftPaddle s) (rightPaddle s) (ball s) v
         (computerScore s) (keys s) (messageEl s) (playerScoreEl s)
         (computerScoreEl s) (random s).
Definition set_computerScore (v : nat) (s : Game) : Game :=
  mkGame (paused s) (gameOver s) (leftPaddle s) (rightPaddle s) (ball s)
         (playerScore s) v (keys s) (messageEl s) (playerScoreEl s)
         (computerScoreEl s) (random s).
Definition set_keys (v : Keys) (s : Game) : Game :=
  mkGame (paused s) (gameOver s) (leftPaddle s) (rightPaddle s) (ball s)
         (playerScore s) (computerScore s) v (messageEl s) (playerScoreEl s)
         (computerScoreEl s) (random s).
Definition set_messageEl (v : Message) (s : Game) : Game :=
  mkGame (paused s) (gameOver s) (leftPaddle s) (rightPaddle s) (ball s)
         (playerScore s) (computerScore s) (keys s) v (playerScoreEl s)
         (computerScoreEl s) (random s).
Definition set_scoreEls (p c : nat) (s : Game) : Game :=
  mkGame (paused s) (gameOver s) (leftPaddle s) (rightPaddle s) (ball s)
         (playerScore s) (computerScore s) (keys s) (messageEl s) p c (random s).
Definition set_random (v : nat -> R) (s : Game) : Game :=
  mkGame (paused s) (gameOver s) (leftPaddle s) (rightPaddle s) (ball s)
         (playerScore s) (computerScore s) (keys s) (messageEl s)
         (playerScoreEl s) (computerScoreEl s) v.

(** [Math.random()]: the next draw, and the state with the stream advanced. *)
Definition Math_random (s : Game) : R * Game :=
  (random s 0%nat, set_random (fun n => random s (S n)) s).

(** The match state of the specification, read off the two flags. *)
Inductive MatchState := Running | Paused | Over.

Definition matchState (s : Game) : MatchState :=
  if gameOver s then Over else if paused s then Paused else Running.

(** ** Constants *)

Definition WIN_SCORE : nat := 10.
Definition PADDLE_WIDTH : R := 12.
Definition PADDLE_HEIGHT : R := 90.
Definition PADDLE_SPEED : R := 12.

Definition paddleOf (side : Side) (s : Game) : Paddle.t :=
  match side with LeftSide => leftPaddle s | RightSide => rightPaddle s end.

Section Pong.

(** [canvas.width] and [canvas.height] *)
Variables WIDTH HEIGHT : R.

(** *** resetBall *)

(** The serve angle in radians, from the draw [u] of [Math.random()]. *)
Definition serveAngle (u : R) : R :=
  let angleDeg := u * 90 - 45 in
  (angleDeg * PI) / 180.

Definition resetBall (direction : R) (s : Game) : Game :=
  let b := Ball.set_x (WIDTH / 2) (ball s) in
  let b := Ball.set_y (HEIGHT / 2) b in
  let b := Ball.set_speed
             (9 + Rmin (INR (playerScore s + computerScore s)) 12 * 0.35) b in
  let '(u, s) := Math_random s in
  let angle := serveAngle u in
  let '(dir, s) :=
    if Req_dec_T direction 0
    then let '(u', s') := Math_random s in
         ((if Rlt_dec u' 0.5 then -1 else 1), s')
    else (direction, s) in
  let b := Ball.set_vx (dir * Ball.speed b * cos angle) b in
  let b := Ball.set_vy (Ball.speed b * sin angle) b in
  set_ball b s.

(** *** updateScoreboard *)

Definition updateScoreboard (s : Game) : Game :=
  set_scoreEls (playerScore s) (computerScore s) s.

(** *** paddleCollision *)

Definition paddleCollision (paddle : Paddle.t) (s : Game) : bool :=
  let b := ball s in
  let closestX := clamp (Ball.x b) (Paddle.x paddle) (Paddle.x paddle + Paddle.width paddle) in
  let closestY := clamp (Ball.y b) (Paddle.y paddle) (Paddle.y paddle + Paddle.height paddle) in
  let dx := Ball.x b - closestX in
  let dy := Ball.y b - closestY in
  Rleb (dx * dx + dy * dy) (Ball.radius b * Ball.radius b).

(** *** reflectFromPaddle *)

Definition relativeY (paddle : Paddle.t) (b : Ball.t) : R :=
  (Ball.y b - (Paddle.y paddle + Paddle.height paddle / 2)) / (Paddle.height paddle / 2).

Definition maxAngle : R := (60 * PI) / 180.

Definition bounceAngle (paddle : Paddle.t) (b : Ball.t) : R :=
  relativeY paddle b * maxAngle.

Definition speedIncrease : R := 0.8.
Definition minHorizontal : R := 2.5.

Definition reflectFromPaddle (side : Side) (s : Game) : Game :=
  let paddle := paddleOf side s in
  let b := ball s in
  let angle := bounceAngle paddle b in
  let currentSpeed := Math_hypot (Ball.vx b) (Ball.vy b) + speedIncrease in
  let dir := match side with LeftSide => 1 | RightSide => -1 end in
  let b := Ball.set_vx (dir * currentSpeed * cos angle) b in
  let b := Ball.set_vy (currentSpeed * sin angle) b in
  let b := if Rlt_dec (Rabs (Ball.vx b)) minHorizontal
           then Ball.set_vx (dir * minHorizontal) b
           else b in
  set_ball b s.

(** *** endGame *)

Definition endGame (playerWon : bool) (s : Game) : Game :=
  let s := set_gameOver true s in
  let s := set_paused true s in
  set_messageEl
    (mkMessage false
       (if playerWon
        then "You win! Refresh the page to play again."%string
        else "Computer wins. Refresh to try again."%string)) s.

(** *** update, in the order of its statements *)

(** Player paddle: keyboard stepping, then the bound to the screen. *)
Definition movePlayer (s : Game) : Game :=
  let lp := leftPaddle s in
  let lp := if ArrowUp (keys s)
            then Paddle.set_y (Paddle.y lp - PADDLE_SPEED) lp else lp in
  let lp := if ArrowDown (keys s)
            then Paddle.set_y (Paddle.y lp + PADDLE_SPEED) lp else lp in
  let lp := Paddle.set_y (clamp (Paddle.y lp) 0 (HEIGHT - Paddle.height lp)) lp in
  set_leftPaddle lp s.

(** Computer paddle.  A paddle object without [maxSpeed] makes the
    comparison [Math.abs(diff) > undefined] false, so the else branch
    runs. *)
Definition moveComputer (s : Game) : Game :=
  let rp := rightPaddle s in
  let targetY := Ball.y (ball s) - Paddle.height rp / 2 in
  let targetY := if Rlt_dec (Ball.vx (ball s)) 0
                 then HEIGHT / 2 - Paddle.height rp / 2
                 else targetY in
  let diff := targetY - Paddle.y rp in
  let rp := match Paddle.maxSpeed rp with
            | Some maxMove =>
                if Rlt_dec maxMove (Rabs diff)
                then Paddle.set_y (Paddle.y rp + Math_sign diff * maxMove) rp
                else Paddle.set_y (Paddle.y rp + diff) rp
            | None => Paddle.set_y (Paddle.y rp + diff) rp
            end in
  let rp := Paddle.set_y (clamp (Paddle.y rp) 0 (HEIGHT - Paddle.height rp)) rp in
  set_rightPaddle rp s.

(** Ball movement. *)
Definition moveBall (s : Game) : Game :=
  let b := ball s in
  let b := Ball.set_x (Ball.x b + Ball.vx b) b in
  let b := Ball.set_y (Ball.y b + Ball.vy b) b in
  set_ball b s.

(** Wall collision: top, else bottom. *)
Definition wallCollision (s : Game) : Game :=
  let b := ball s in
  if Rle_dec (Ball.y b - Ball.radius b) 0
  then set_ball (Ball.set_vy (- Ball.vy b) (Ball.set_y (Ball.radius b) b)) s
  else if Rle_dec HEIGHT (Ball.y b + Ball.radius b)
  then set_ball (Ball.set_vy (- Ball.vy b) (Ball.set_y (HEIGHT - Ball.radius b) b)) s
  else s.

(** Paddle collisions: left paddle when moving left, else right paddle
    when moving right. *)
Definition paddleBounce (s : Game) : Game :=
  let b := ball s in
  if Rltb (Ball.vx b) 0 && paddleCollision (leftPaddle s) s
  then
    let lp := leftPaddle s in
    let s := set_ball (Ball.set_x (Paddle.x lp + Paddle.width lp + Ball.radius b) b) s in
    reflectFromPaddle LeftSide s
  else if Rltb 0 (Ball.vx b) && paddleCollision (rightPaddle s) s
  then
    let rp := rightPaddle s in
    let s := set_ball (Ball.set_x (Paddle.x rp - Ball.radius b) b) s in
    reflectFromPaddle RightSide s
  else s.

(** Score check: the ball left the left or the right bound. *)
Definition scoreCheck (s : Game) : Game :=
  let b := ball s in
  if Rlt_dec (Ball.x b) (- Ball.radius b)
  then
    let s := set_computerScore (S (computerScore s)) s in
    let s := updateScoreboard s in
    if (WIN_SCORE <=? computerScore s)%nat
    then endGame false s
    else resetBall 1 s
  else if Rlt_dec (WIDTH + Ball.radius b) (Ball.x b)
  then
    let s := set_playerScore (S (playerScore s)) s in
    let s := updateScoreboard s in
    if (WIN_SCORE <=? playerScore s)%nat
    then endGame true s
    else resetBall (-1) s
  else s.

Definition update (s : Game) : Game :=
  if paused s || gameOver s then s
  else scoreCheck
         (paddleBounce
            (wallCollision
               (moveBall
                  (moveComputer
                     (movePlayer s))))).

(** *** loop and start

    [loop] runs [update], draws, and asks the host for another frame
    unless the game is over; only [update] touches the state. *)
Definition loop (s : Game) : Game := update s.

Definition start (s : Game) : Game :=
  let s := resetBall 0 s in
  let s := set_playerScore 0 s in
  let s := set_computerScore 0 s in
  let s := updateScoreboard s in
  loop s.

(** *** Input handlers *)

Definition keydown (code : string) (s : Game) : Game :=
  if String.eqb code "ArrowUp" then
    set_keys (mkKeys true (ArrowDown (keys s))) s
  else if String.eqb code "ArrowDown" then
    set_keys (mkKeys (ArrowUp (keys s)) true) s
  else if String.eqb code "Space" then
    let s := set_paused (negb (paused s)) s in
    (* the resumed loop is a later frame event *)
    set_messageEl
      (mkMessage (negb (paused s))
         (if paused s then "Paused"%string else EmptyString)) s
  else s.

Definition keyup (code : string) (s : Game) : Game :=
  if String.eqb code "ArrowUp" then
    set_keys (mkKeys false (ArrowDown (keys s))) s
  else if String.eqb code "ArrowDown" then
    set_keys (mkKeys (ArrowUp (keys s)) false) s
  else s.

(** [mousemove]: [clientY] of the event, [top] and [height] of the
    canvas's bounding rectangle. *)
Definition mousemove (clientY rectTop rectHeight : R) (s : Game) : Game :=
  let scaleY := HEIGHT / rectHeight in
  let mouseY := (clientY - rectTop) * scaleY in
  let lp := leftPaddle s in
  set_leftPaddle
    (Paddle.set_y (clamp (mouseY - Paddle.height lp / 2) 0
                         (HEIGHT - Paddle.height lp)) lp) s.

(** [touchmove]: the same computation on the first touch point. *)
Definition touchmove (clientY rectTop rectHeight : R) (s : Game) : Game :=
  let scaleY := HEIGHT / rectHeight in
  let touchY := (clientY - rectTop) * scaleY in
  let lp := leftPaddle s in
  set_leftPaddle
    (Paddle.set_y (clamp (touchY - Paddle.height lp / 2) 0
                         (HEIGHT - Paddle.height lp)) lp) s.

(** *** The program as an event system *)

Inductive Event :=
| Frame                                   (* an animation frame runs loop *)
| KeyDown (code : string)
| KeyUp (code : string)
| MouseMove (clientY rectTop rectHeight : R)
| TouchMove (clientY rectTop rectHeight : R)
| PongStart                               (* window.__pong.start() *)
| PongResetBall (direction : R).          (* window.__pong.resetBall(d) *)

Definition handle (e : Event) (s : Game) : Game :=
  match e with
  | Frame => loop s
  | KeyDown code => keydown code s
  | KeyUp code => keyup code s
  | MouseMove cy top h => mousemove cy top h s
  | TouchMove cy top h => touchmove cy top h s
  | PongStart => start s
  | PongResetBall d => resetBall d s
  end.

Definition run (es : list Event) (s : Game) : Game :=
  fold_left (fun s e => handle e s) es s.

(** *** Start-up

    The objects as the script creates them, then the three statements
    under "Kick off game".  The message element comes from the page. *)
Definition created (msg : Message) (rnd : nat -> R) : Game :=
  mkGame false false
    (Paddle.mk 20 ((HEIGHT - PADDLE_HEIGHT) / 2) PADDLE_WIDTH PADDLE_HEIGHT 0 None)
    (Paddle.mk (WIDTH - PADDLE_WIDTH - 20) ((HEIGHT - PADDLE_HEIGHT) / 2)
               PADDLE_WIDTH PADDLE_HEIGHT 0 (Some 10))
    (Ball.mk (WIDTH / 2) (HEIGHT / 2) 9 0 0 0)
    0%nat 0%nat
    (mkKeys false false)
    msg 0%nat 0%nat rnd.

Definition kickOff (msg : Message) (rnd : nat -> R) : Game :=
  updateScoreboard (resetBall 0 (created msg rnd)).

(** The fields no statement of the script ever assigns. *)
Definition geometry (s : Game) : Prop :=
  Paddle.x (leftPaddle s) = 20 /\
  Paddle.width (leftPaddle s) = PADDLE_WIDTH /\
  Paddle.height (leftPaddle s) = PADDLE_HEIGHT /\
  Paddle.x (rightPaddle s) = WIDTH - PADDLE_WIDTH - 20 /\
  Paddle.width (rightPaddle s) = PADDLE_WIDTH /\
  Paddle.height (rightPaddle s) = PADDLE_HEIGHT /\
  Paddle.maxSpeed (rightPaddle s) = Some 10 /\
  Ball.radius (ball s) = 9.

(** ** Vocabulary of the properties *)

(** The part of [update] that runs before the score check. *)
Definition physics (s : Game) : Game :=
  paddleBounce (wallCollision (moveBall (moveComputer (movePlayer s)))).

(** What the statements before the score check leave alone. *)
Record same_match (s t : Game) : Prop := {
  sm_paused : paused t = paused s;
  sm_gameOver : gameOver t = gameOver s;
  sm_player : playerScore t = playerScore s;
  sm_computer : computerScore t = computerScore s;
  sm_keys : keys t = keys s;
  sm_message : messageEl t = messageEl s;
  sm_random : random t = random s;
  sm_radius : Ball.radius (ball t) = Ball.radius (ball s);
  sm_speed : Ball.speed (ball t) = Ball.speed (ball s)
}.

(** The statements that only touch the ball, the scores or the page. *)
Definition same_paddles (s t : Game) : Prop :=
  leftPaddle t = leftPaddle s /\ rightPaddle t = rightPaddle s.

(** The horizontal direction that leaves a paddle. *)
Definition away (side : Side) : R :=
  match side with LeftSide => 1 | RightSide => -1 end.

(** The speed a reset computes from the combined score. *)
Definition serveSpeed (playerScore computerScore : nat) : R :=
  9 + Rmin (INR (playerScore + computerScore)) 12 * 0.35.

(** The legal range of a paddle's [y]. *)
Definition in_range (p : Paddle.t) : Prop :=
  0 <= Paddle.y p <= HEIGHT - Paddle.height p.

(** The scalar speed of the ball: the Euclidean norm of its velocity. *)
Definition scalarSpeed (b : Ball.t) : R := Math_hypot (Ball.vx b) (Ball.vy b).

(** Degrees to radians, as the script converts them. *)
Definition degrees (d : R) : R := (d * PI) / 180.

End Pong.

(** ** A concrete match

    A running match on an 800 by 600 canvas, with the paddles where the
    script creates them, the ball on the centre line at abscissa [bx]
    moving horizontally at [bvx], the given scores, and a random source
    that always draws one half. *)
Definition sampleGame (bx bvx : R) (player computer : nat) : Game :=
  mkGame false false
    (Paddle.mk 20 255 12 90 0 None)
    (Paddle.mk 768 255 12 90 0 (Some 10))
    (Ball.mk bx 300 9 9 bvx 0)
    player computer
    (mkKeys false false)
    (mkMessage true EmptyString)
    player computer
    (fun _ => 1 / 2).

(** ** The host's frame queue

    [requestAnimationFrame(loop)] queues one call of [loop] for the next
    animation frame.  The host state pairs the game with the number of
    queued calls; an animation frame takes the calls queued so far and runs
    them one after the other, each queuing its own successor unless the
    game is over. *)

Record Host := mkHost {
  game : Game;
  pending : nat         (* calls of loop queued for the next frame *)
}.

Section PongHost.

Variables WIDTH HEIGHT : R.

(** [loop]: update, draw, and the request for another frame. *)
Definition loopHost (h : Host) : Host :=
  let g := update WIDTH HEIGHT (game h) in
  mkHost g (if gameOver g then pending h else S (pending h)).

(** One animation frame of the host. *)
Definition animationFrame (h : Host) : Host :=
  Nat.iter (pending h) loopHost (mkHost (game h) 0).

(** The [keydown] listener with its request to resume the loop. *)
Definition keydownHost (code : string) (h : Host) : Host :=
  if String.eqb code "ArrowUp" then mkHost (keydown code (game h)) (pending h)
  else if String.eqb code "ArrowDown" then mkHost (keydown code (game h)) (pending h)
  else if String.eqb code "Space" then
    let g := keydown code (game h) in
    mkHost g (if negb (paused g) && negb (gameOver g)
              then S (pending h) else pending h)
  else h.

(** [start], whose last statement calls [loop] directly. *)
Definition startHost (h : Host) : Host :=
  let s := resetBall WIDTH HEIGHT 0 (game h) in
  let s := set_playerScore 0 s in
  let s := set_computerScore 0 s in
  let s := updateScoreboard s in
  loopHost (mkHost s (pending h)).

(** The statements under "Kick off game", with their one request. *)
Definition kickOffHost (msg : Message) (rnd : nat -> R) : Host :=
  mkHost (kickOff WIDTH HEIGHT msg rnd) 1.


(** The ball lies between the top and the bottom wall. *)
Definition between_walls (b : Ball.t) : Prop :=
  Ball.radius b <= Ball.y b <= HEIGHT - Ball.radius b.

(** The pointer's position in canvas coordinates, as both move handlers
    compute it. *)
Definition pointerY (clientY rectTop rectHeight : R) : R :=
  (clientY - rectTop) * (HEIGHT / rectHeight).

End PongHost.

(** Every draw of the random source lies in [0, 1). *)
Definition fairDraws (rnd : nat -> R) : Prop :=
  forall n, 0 <= rnd n < 1.

(** Console calls of [resetBall] with one of its documented directions. *)
Definition documented (e : Event) : Prop :=
  match e with
  | PongResetBall d => d = 1 \/ d = -1 \/ d = 0
  | _ => True
  end.

(** The scoreboard shows the scores. *)
Definition scoreboard_current (s : Game) : Prop :=
  playerScoreEl s = playerScore s /\ computerScoreEl s = computerScore s.

(** No score is past the threshold, a score at the threshold means the
    match is over, and the scoreboard is current. *)
Definition scores_sound (s : Game) : Prop :=
  (playerScore s <= WIN_SCORE)%nat /\ (computerScore s <= WIN_SCORE)%nat /\
  ((WIN_SCORE <= playerScore s)%nat \/ (WIN_SCORE <= computerScore s)%nat ->
   gameOver s = true) /\
  scoreboard_current s.

(** The ball is in play: the random source is fair and the horizontal
    velocity is at least the floor in magnitude. *)
Definition lively (s : Game) : Prop :=
  fairDraws (random s) /\
  2.5 <= Rabs (Ball.vx (ball s)).

(** ** Drawing

    [draw] only reads the game and talks to the canvas context; it is the
    list of the context calls it makes, in order. *)

Inductive CanvasOp :=
| ClearRect (x y w h : R)
| FillStyle (colour : string)
| FillRect (x y w h : R)
| BeginPath
| MoveTo (x y : R)
| ArcTo (x1 y1 x2 y2 r : R)
| Fill
| Arc (x y r startAngle endAngle : R)
| ClosePath.

Definition roundedRect (x y w h r : R) : list CanvasOp :=
  [ BeginPath;
    MoveTo (x + r) y;
    ArcTo (x + w) y (x + w) (y + h) r;
    ArcTo (x + w) (y + h) x (y + h) r;
    ArcTo x (y + h) x y r;
    ArcTo x y (x + w) y r;
    Fill ].

Section Drawing.

Variables WIDTH HEIGHT : R.

Definition segH : R := 12.
Definition gap : R := 10.

(** The loop [for (let y = 10; y < HEIGHT - 10; y += segH + gap)], run for
    at most [fuel] rounds from [y]. *)
Fixpoint dashesFrom (fuel : nat) (midX y : R) : list CanvasOp :=
  match fuel with
  | O => []
  | S fuel' =>
      if Rlt_dec y (HEIGHT - 10)
      then FillRect midX y 2 segH :: dashesFrom fuel' midX (y + (segH + gap))
      else []
  end.

(** Rounds that always suffice: the loop variable grows by 22 a round and
    stops before HEIGHT. *)
Definition dashFuel : nat := Z.to_nat (up HEIGHT).

Definition draw (s : Game) : list CanvasOp :=
  [ClearRect 0 0 WIDTH HEIGHT; FillStyle "#1e90ff"]
  ++ dashesFrom dashFuel (WIDTH / 2 - 1) 10
  ++ [FillStyle "#e6f1ff"]
  ++ roundedRect (Paddle.x (leftPaddle s)) (Paddle.y (leftPaddle s))
                 (Paddle.width (leftPaddle s)) (Paddle.height (leftPaddle s)) 4
  ++ roundedRect (Paddle.x (rightPaddle s)) (Paddle.y (rightPaddle s))
                 (Paddle.width (rightPaddle s)) (Paddle.height (rightPaddle s)) 4
  ++ [ BeginPath;
       FillStyle "#ffd166";
       Arc (Ball.x (ball s)) (Ball.y (ball s)) (Ball.radius (ball s)) 0 (PI * 2);
       Fill;
       ClosePath ].

(** The dash of the centre line with index [k]. *)
Definition dash (k : nat) : CanvasOp :=
  FillRect (WIDTH / 2 - 1) (10 + 22 * INR k) 2 12.

End Drawing.

(** Pointer and touch events on a canvas that is displayed with a
    non-zero height, so that the handlers' scale factor is a number. *)
Definition displayed (e : Event) : Prop :=
  match e with
  | MouseMove _ _ rectHeight => rectHeight <> 0
  | TouchMove _ _ rectHeight => rectHeight <> 0
  | _ => True
  end.

(** * Properties *)

(** ** Deciding comparisons in proofs *)

Lemma Rltb_true (a b : R) : Rltb a b = true <-> a < b.
Proof. unfold Rltb; destruct (Rlt_dec a b); split; intros; try easy. Qed.

Lemma Rltb_false (a b : R) : Rltb a b = false <-> b <= a.
Proof.
  unfold Rltb; destruct (Rlt_dec a b); split; intros; try easy; lra.
Qed.

Lemma Rleb_true (a b : R) : Rleb a b = true <-> a <= b.
Proof. unfold Rleb; destruct (Rle_dec a b); split; intros; try easy. Qed.

Lemma Rleb_false (a b : R) : Rleb a b = false <-> b < a.
Proof.
  unfold Rleb; destruct (Rle_dec a b); split; intros; try easy; lra.
Qed.

Section Frames.

Variables WIDTH HEIGHT : R.

Lemma update_unfold (s : Game) :
  update WIDTH HEIGHT s =
  if paused s || gameOver s then s else scoreCheck WIDTH HEIGHT (physics HEIGHT s).
Proof. reflexivity. Qed.

Lemma same_match_refl (s : Game) : same_match s s.
Proof. constructor; reflexivity. Qed.

Lemma same_match_trans (s t u : Game) :
  same_match s t -> same_match t u -> same_match s u.
Proof.
  intros [] []; constructor; congruence.
Qed.

Lemma movePlayer_same (s : Game) : same_match s (movePlayer HEIGHT s).
Proof. constructor; reflexivity. Qed.

Lemma moveComputer_same (s : Game) : same_match s (moveComputer HEIGHT s).
Proof. constructor; reflexivity. Qed.

Lemma moveBall_same (s : Game) : same_match s (moveBall s).
Proof. constructor; reflexivity. Qed.

Lemma wallCollision_same (s : Game) : same_match s (wallCollision HEIGHT s).
Proof.
  unfold wallCollision.
  destruct (Rle_dec _ _); [constructor; reflexivity|].
  destruct (Rle_dec _ _); constructor; reflexivity.
Qed.

Lemma reflectFromPaddle_same (side : Side) (s : Game) :
  same_match s (reflectFromPaddle side s).
Proof.
  unfold reflectFromPaddle.
  destruct (Rlt_dec _ _); constructor; reflexivity.
Qed.

Lemma paddleBounce_same (s : Game) : same_match s (paddleBounce s).
Proof.
  unfold paddleBounce.
  destruct (_ && _).
  - eapply same_match_trans; [|apply reflectFromPaddle_same].
    constructor; reflexivity.
  - destruct (_ && _); [|apply same_match_refl].
    eapply same_match_trans; [|apply reflectFromPaddle_same].
    constructor; reflexivity.
Qed.

Lemma physics_same (s : Game) : same_match s (physics HEIGHT s).
Proof.
  unfold physics.
  eapply same_match_trans; [apply movePlayer_same|].
  eapply same_match_trans; [apply moveComputer_same|].
  eapply same_match_trans; [apply moveBall_same|].
  eapply same_match_trans; [apply wallCollision_same|].
  apply paddleBounce_same.
Qed.

End Frames.

(** ** The end of the match *)

Section MatchEnd.

Variables WIDTH HEIGHT : R.

Lemma resetBall_flags (d : R) (s : Game) :
  paused (resetBall WIDTH HEIGHT d s) = paused s /\
  gameOver (resetBall WIDTH HEIGHT d s) = gameOver s /\
  playerScore (resetBall WIDTH HEIGHT d s) = playerScore s /\
  computerScore (resetBall WIDTH HEIGHT d s) = computerScore s /\
  messageEl (resetBall WIDTH HEIGHT d s) = messageEl s /\
  leftPaddle (resetBall WIDTH HEIGHT d s) = leftPaddle s /\
  rightPaddle (resetBall WIDTH HEIGHT d s) = rightPaddle s.
Proof.
  unfold resetBall, Math_random.
  destruct (Req_dec_T d 0); simpl; repeat split; reflexivity.
Qed.

Lemma update_when_over (s : Game) :
  gameOver s = true -> update WIDTH HEIGHT s = s.
Proof.
  intros Hover. rewrite update_unfold, Hover, orb_true_r. reflexivity.
Qed.

Lemma update_when_paused (s : Game) :
  paused s = true -> update WIDTH HEIGHT s = s.
Proof.
  intros Hp. rewrite update_unfold, Hp. reflexivity.
Qed.

Lemma handle_keeps_over (e : Event) (s : Game) :
  gameOver s = true -> gameOver (handle WIDTH HEIGHT e s) = true.
Proof.
  intros Hover. destruct e; simpl.
  - unfold loop. rewrite update_when_over; assumption.
  - unfold keydown.
    repeat (match goal with |- context [String.eqb ?a ?b] => destruct (String.eqb a b) end);
      simpl; assumption.
  - unfold keyup.
    repeat (match goal with |- context [String.eqb ?a ?b] => destruct (String.eqb a b) end);
      simpl; assumption.
  - exact Hover.
  - exact Hover.
  - unfold start, loop. rewrite update_when_over; simpl;
      destruct (resetBall_flags 0 s) as (_ & -> & _); assumption.
  - destruct (resetBall_flags direction s) as (_ & -> & _); assumption.
Qed.

Lemma run_keeps_over (es : list Event) (s : Game) :
  gameOver s = true -> gameOver (run WIDTH HEIGHT es s) = true.
Proof.
  revert s. induction es as [|e es IH]; intros s Hover; simpl.
  - exact Hover.
  - apply IH, handle_keeps_over, Hover.
Qed.

(** A frame that brings a score to the threshold ends the match. *)
Lemma update_reaching_win (s : Game) :
  (playerScore (update WIDTH HEIGHT s) = WIN_SCORE /\ playerScore s <> WIN_SCORE) \/
  (computerScore (update WIDTH HEIGHT s) = WIN_SCORE /\ computerScore s <> WIN_SCORE) ->
  gameOver (update WIDTH HEIGHT s) = true.
Proof.
  rewrite update_unfold.
  destruct (paused s || gameOver s); [intros [[? ?]|[? ?]]; congruence|].
  destruct (physics_same HEIGHT s) as [_ _ Hp Hc _ _ _ _ _].
  unfold scoreCheck.
  destruct (Rlt_dec _ _); [|destruct (Rlt_dec _ _)].
  - match goal with |- context [(WIN_SCORE <=? ?n)%nat] =>
      destruct (WIN_SCORE <=? n)%nat eqn:Hwin end; [reflexivity|].
    apply Nat.leb_gt in Hwin.
    match goal with |- context [resetBall _ _ ?d ?t] =>
      destruct (resetBall_flags d t) as (_ & _ & -> & -> & _) end.
    cbn [playerScore computerScore updateScoreboard set_scoreEls set_computerScore] in *.
    rewrite Hp. intros [[? ?]|[? ?]]; [congruence|lia].
  - match goal with |- context [(WIN_SCORE <=? ?n)%nat] =>
      destruct (WIN_SCORE <=? n)%nat eqn:Hwin end; [reflexivity|].
    apply Nat.leb_gt in Hwin.
    match goal with |- context [resetBall _ _ ?d ?t] =>
      destruct (resetBall_flags d t) as (_ & _ & -> & -> & _) end.
    cbn [playerScore computerScore updateScoreboard set_scoreEls set_playerScore] in *.
    rewrite Hc. intros [[? ?]|[? ?]]; [lia|congruence].
  - rewrite Hp, Hc. intros [[? ?]|[? ?]]; congruence.
Qed.

(** C1.  When a simulation step brings either score to exactly 10, the
    match state after that step is Over; and after any further sequence of
    events (frames, keys, pointer and touch moves, console calls) the
    match state is still Over and the simulation step returns the state it
    was given, so paddle positions,
    ball position and velocity, and scores are all unchanged by it. *)
Theorem win_ends_match_and_freezes_update (s : Game) (es : list Event) :
  (playerScore (update WIDTH HEIGHT s) = WIN_SCORE /\ playerScore s <> WIN_SCORE) \/
  (computerScore (update WIDTH HEIGHT s) = WIN_SCORE /\ computerScore s <> WIN_SCORE) ->
  matchState (update WIDTH HEIGHT s) = Over /\
  matchState (run WIDTH HEIGHT es (update WIDTH HEIGHT s)) = Over /\
  update WIDTH HEIGHT (run WIDTH HEIGHT es (update WIDTH HEIGHT s))
  = run WIDTH HEIGHT es (update WIDTH HEIGHT s).
Proof.
  intros Hwin. apply update_reaching_win in Hwin.
  pose proof (run_keeps_over es _ Hwin) as Hlater.
  repeat split.
  - unfold matchState. rewrite Hwin. reflexivity.
  - unfold matchState. rewrite Hlater. reflexivity.
  - apply update_when_over, Hlater.
Qed.

(** C10.  Every call of the ball reset, for every direction argument and
    every score pair, puts the ball's centre at (WIDTH/2, HEIGHT/2). *)
Theorem resetBall_centres_ball (direction : R) (s : Game) :
  Ball.x (ball (resetBall WIDTH HEIGHT direction s)) = WIDTH / 2 /\
  Ball.y (ball (resetBall WIDTH HEIGHT direction s)) = HEIGHT / 2.
Proof.
  unfold resetBall, Math_random.
  destruct (Req_dec_T direction 0); simpl; split; reflexivity.
Qed.

End MatchEnd.

(** ** Paddles stay on the screen *)

Section PaddleRange.

Variables WIDTH HEIGHT : R.

Lemma clamp_bounds (v a b : R) : a <= b -> a <= clamp v a b <= b.
Proof.
  intros Hab. unfold clamp, Rmax, Rmin.
  destruct (Rle_dec b v); destruct (Rle_dec a _); lra.
Qed.

Lemma reflectFromPaddle_paddles (side : Side) (s : Game) :
  same_paddles s (reflectFromPaddle side s).
Proof.
  unfold reflectFromPaddle. destruct (Rlt_dec _ _); split; reflexivity.
Qed.

Lemma paddleBounce_paddles (s : Game) : same_paddles s (paddleBounce s).
Proof.
  unfold paddleBounce, same_paddles.
  destruct (_ && _); [|destruct (_ && _)]; cbv zeta.
  - match goal with |- context [reflectFromPaddle ?d ?t] =>
      destruct (reflectFromPaddle_paddles d t) as [-> ->] end.
    split; reflexivity.
  - match goal with |- context [reflectFromPaddle ?d ?t] =>
      destruct (reflectFromPaddle_paddles d t) as [-> ->] end.
    split; reflexivity.
  - split; reflexivity.
Qed.

Lemma wallCollision_paddles (s : Game) : same_paddles s (wallCollision HEIGHT s).
Proof.
  unfold wallCollision.
  destruct (Rle_dec _ _); [|destruct (Rle_dec _ _)]; split; reflexivity.
Qed.

Lemma scoreCheck_paddles (s : Game) : same_paddles s (scoreCheck WIDTH HEIGHT s).
Proof.
  unfold scoreCheck, same_paddles.
  destruct (Rlt_dec _ _); [|destruct (Rlt_dec _ _)].
  - destruct (_ <=? _)%nat; [split; reflexivity|].
    match goal with |- context [resetBall _ _ ?d ?t] =>
      destruct (resetBall_flags WIDTH HEIGHT d t) as (_ & _ & _ & _ & _ & -> & ->) end.
    split; reflexivity.
  - destruct (_ <=? _)%nat; [split; reflexivity|].
    match goal with |- context [resetBall _ _ ?d ?t] =>
      destruct (resetBall_flags WIDTH HEIGHT d t) as (_ & _ & _ & _ & _ & -> & ->) end.
    split; reflexivity.
  - split; reflexivity.
Qed.

(** After the two paddle statements of [update], the rest leaves them. *)
Lemma update_paddles (s : Game) :
  paused s = false -> gameOver s = false ->
  same_paddles (moveComputer HEIGHT (movePlayer HEIGHT s)) (update WIDTH HEIGHT s).
Proof.
  intros Hp Ho. rewrite update_unfold, Hp, Ho. simpl. unfold physics, same_paddles.
  set (t := moveComputer HEIGHT (movePlayer HEIGHT s)).
  destruct (scoreCheck_paddles (paddleBounce (wallCollision HEIGHT (moveBall t)))) as [-> ->].
  destruct (paddleBounce_paddles (wallCollision HEIGHT (moveBall t))) as [-> ->].
  destruct (wallCollision_paddles (moveBall t)) as [-> ->].
  split; reflexivity.
Qed.

Lemma movePlayer_in_range (s : Game) :
  Paddle.height (leftPaddle s) <= HEIGHT ->
  in_range HEIGHT (leftPaddle (movePlayer HEIGHT s)).
Proof.
  intros Hh. unfold movePlayer, in_range.
  destruct (ArrowUp (keys s)); destruct (ArrowDown (keys s)); simpl;
    apply clamp_bounds; lra.
Qed.

Lemma moveComputer_in_range (s : Game) :
  Paddle.height (rightPaddle s) <= HEIGHT ->
  in_range HEIGHT (rightPaddle (moveComputer HEIGHT s)).
Proof.
  intros Hh. unfold moveComputer, in_range.
  destruct (Paddle.maxSpeed (rightPaddle s)); [destruct (Rlt_dec _ _)|]; simpl;
    apply clamp_bounds; lra.
Qed.

Lemma update_in_range (s : Game) :
  Paddle.height (leftPaddle s) <= HEIGHT ->
  Paddle.height (rightPaddle s) <= HEIGHT ->
  paused s = false -> gameOver s = false ->
  in_range HEIGHT (leftPaddle (update WIDTH HEIGHT s)) /\
  in_range HEIGHT (rightPaddle (update WIDTH HEIGHT s)).
Proof.
  intros Hl Hr Hp Ho.
  destruct (update_paddles s Hp Ho) as [-> ->]. split.
  - apply (movePlayer_in_range s Hl).
  - apply (moveComputer_in_range (movePlayer HEIGHT s)). exact Hr.
Qed.

Lemma pointer_in_range (clientY rectTop rectHeight : R) (s : Game) :
  Paddle.height (leftPaddle s) <= HEIGHT ->
  in_range HEIGHT (leftPaddle (mousemove HEIGHT clientY rectTop rectHeight s)) /\
  in_range HEIGHT (leftPaddle (touchmove HEIGHT clientY rectTop rectHeight s)).
Proof.
  intros Hh. unfold mousemove, touchmove, in_range; simpl.
  split; apply clamp_bounds; lra.
Qed.

(** C9 (as amended).  Whenever both paddles fit in the playfield (their
    height is at most HEIGHT): a simulation step that runs (the match
    neither paused nor over) leaves both paddles' y in
    [0, HEIGHT - height], whatever y and whatever key, ball and target
    values it started from; so do the pointer and touch handlers, on a
    canvas displayed with a non-zero height, for every event coordinate,
    however far out of range; and no event of the program on such a
    canvas moves a paddle out of that range once it is inside. *)
Theorem paddle_y_always_in_range (s : Game) :
  Paddle.height (leftPaddle s) <= HEIGHT ->
  Paddle.height (rightPaddle s) <= HEIGHT ->
  (paused s = false -> gameOver s = false ->
   in_range HEIGHT (leftPaddle (update WIDTH HEIGHT s)) /\
   in_range HEIGHT (rightPaddle (update WIDTH HEIGHT s))) /\
  (forall clientY rectTop rectHeight, rectHeight <> 0 ->
   in_range HEIGHT (leftPaddle (mousemove HEIGHT clientY rectTop rectHeight s)) /\
   in_range HEIGHT (leftPaddle (touchmove HEIGHT clientY rectTop rectHeight s))) /\
  (forall e, displayed e ->
   in_range HEIGHT (leftPaddle s) -> in_range HEIGHT (rightPaddle s) ->
   in_range HEIGHT (leftPaddle (handle WIDTH HEIGHT e s)) /\
   in_range HEIGHT (rightPaddle (handle WIDTH HEIGHT e s))).
Proof.
  intros Hl Hr. split; [|split].
  - intros Hp Ho. apply update_in_range; assumption.
  - intros. apply pointer_in_range; assumption.
  - assert (Hupd : forall t,
      Paddle.height (leftPaddle t) <= HEIGHT ->
      Paddle.height (rightPaddle t) <= HEIGHT ->
      in_range HEIGHT (leftPaddle t) -> in_range HEIGHT (rightPaddle t) ->
      in_range HEIGHT (leftPaddle (update WIDTH HEIGHT t)) /\
      in_range HEIGHT (rightPaddle (update WIDTH HEIGHT t))).
    { intros t Htl Htr Hil Hir.
      destruct (paused t) eqn:Hp; [rewrite update_when_paused; auto|].
      destruct (gameOver t) eqn:Ho; [rewrite update_when_over; auto|].
      apply update_in_range; assumption. }
    intros e _ Hil Hir. destruct e; simpl.
    + apply Hupd; assumption.
    + unfold keydown.
      repeat (match goal with |- context [String.eqb ?a ?b] => destruct (String.eqb a b) end);
        simpl; auto.
    + unfold keyup.
      repeat (match goal with |- context [String.eqb ?a ?b] => destruct (String.eqb a b) end);
        simpl; auto.
    + split; [apply pointer_in_range; assumption | exact Hir].
    + split; [apply pointer_in_range; assumption | exact Hir].
    + unfold start, loop.
      destruct (resetBall_flags WIDTH HEIGHT 0 s) as (_ & _ & _ & _ & _ & El & Er).
      apply Hupd; simpl; rewrite ?El, ?Er; assumption.
    + destruct (resetBall_flags WIDTH HEIGHT direction s) as (_ & _ & _ & _ & _ & -> & ->).
      auto.
Qed.

End PaddleRange.

(** ** The paddle-bounce reflection rule *)

Section Reflection.

Lemma hypot_nonneg (a b : R) : 0 <= Math_hypot a b.
Proof. apply sqrt_pos. Qed.

Lemma sin_cos_square (a : R) : sin a * sin a + cos a * cos a = 1.
Proof. exact (sin2_cos2 a). Qed.

Lemma away_square (side : Side) : away side * away side = 1.
Proof. destruct side; simpl; ring. Qed.

(** The velocity [reflectFromPaddle] leaves, written out. *)
Lemma reflectFromPaddle_velocity (side : Side) (s : Game) :
  let b := ball s in
  let c := scalarSpeed b + speedIncrease in
  let a := bounceAngle (paddleOf side s) b in
  let b' := ball (reflectFromPaddle side s) in
  Ball.vy b' = c * sin a /\
  Ball.x b' = Ball.x b /\ Ball.y b' = Ball.y b /\
  (Rabs (away side * c * cos a) < minHorizontal ->
   Ball.vx b' = away side * minHorizontal) /\
  (minHorizontal <= Rabs (away side * c * cos a) ->
   Ball.vx b' = away side * c * cos a).
Proof.
  unfold reflectFromPaddle, scalarSpeed, away. cbv zeta.
  destruct side; cbn [Ball.vx Ball.vy Ball.set_vx Ball.set_vy ball set_ball];
    destruct (Rlt_dec _ _);
    cbn [Ball.vx Ball.vy Ball.x Ball.y Ball.set_vx Ball.set_vy ball set_ball];
    repeat split; intros; try reflexivity; exfalso; lra.
Qed.

End Reflection.

(** ** Bounce angle and horizontal floor *)

Section BounceDirection.

Lemma degrees_60 : degrees 60 = PI / 3.
Proof. unfold degrees. lra. Qed.

Lemma scalarSpeed_increased_pos (b : Ball.t) : 0 < scalarSpeed b + speedIncrease.
Proof.
  unfold scalarSpeed, speedIncrease.
  pose proof (hypot_nonneg (Ball.vx b) (Ball.vy b)). lra.
Qed.

(** The horizontal component always clears the floor. *)
Lemma reflect_floor (side : Side) (s : Game) :
  minHorizontal <= Rabs (Ball.vx (ball (reflectFromPaddle side s))).
Proof.
  destruct (reflectFromPaddle_velocity side s) as (_ & _ & _ & Hfloor & Hkeep).
  cbv zeta in *.
  destruct (Rlt_dec (Rabs (away side * (scalarSpeed (ball s) + speedIncrease)
                           * cos (bounceAngle (paddleOf side s) (ball s))))
                    minHorizontal) as [Hlt|Hge].
  - rewrite (Hfloor Hlt).
    destruct side; unfold away, minHorizontal, Rabs;
      destruct (Rcase_abs _); lra.
  - rewrite Hkeep by lra. lra.
Qed.

(** With a bounce angle strictly inside a quarter turn, the ball leaves
    the paddle. *)
Lemma reflect_away (side : Side) (s : Game) :
  - (PI / 2) < bounceAngle (paddleOf side s) (ball s) < PI / 2 ->
  0 < away side * Ball.vx (ball (reflectFromPaddle side s)).
Proof.
  intros [Hlo Hhi].
  destruct (reflectFromPaddle_velocity side s) as (_ & _ & _ & Hfloor & Hkeep).
  cbv zeta in *.
  pose proof (cos_gt_0 _ Hlo Hhi) as Hcos.
  pose proof (scalarSpeed_increased_pos (ball s)) as Hc.
  pose proof (away_square side) as Hd.
  set (c := scalarSpeed (ball s) + speedIncrease) in *.
  set (a := bounceAngle (paddleOf side s) (ball s)) in *.
  destruct (Rlt_dec (Rabs (away side * c * cos a)) minHorizontal) as [Hlt|Hge].
  - rewrite (Hfloor Hlt).
    replace (away side * (away side * minHorizontal))
      with ((away side * away side) * minHorizontal) by ring.
    rewrite Hd. unfold minHorizontal. lra.
  - rewrite Hkeep by lra.
    replace (away side * (away side * c * cos a))
      with ((away side * away side) * (c * cos a)) by ring.
    rewrite Hd. nra.
Qed.

(** C6.  The reflection rule takes the relative intersection r to the
    bounce angle r * 60 degrees, and the vertical velocity it leaves is the
    new speed times the sine of that angle.  For r = 0 the angle is 0 and
    the bounce is purely horizontal (no vertical velocity, horizontal
    velocity away from the paddle); for r = 1 or r = -1 the magnitude of
    the angle is exactly 60 degrees, the vertical velocity has the
    magnitude of the new speed at 60 degrees, and so has the horizontal
    one whenever the new speed is at least 5 (so that the floor of 2.5
    does not replace it). *)
Theorem bounce_angle_rule (side : Side) (s : Game) :
  let p := paddleOf side s in
  let b := ball s in
  let r := relativeY p b in
  let b' := ball (reflectFromPaddle side s) in
  bounceAngle p b = r * degrees 60 /\
  Ball.vy b' = (scalarSpeed b + 0.8) * sin (r * degrees 60) /\
  (r = 0 ->
   bounceAngle p b = 0 /\ Ball.vy b' = 0 /\ 0 < away side * Ball.vx b') /\
  (r = 1 \/ r = -1 ->
   Rabs (bounceAngle p b) = degrees 60 /\
   Rabs (Ball.vy b') = (scalarSpeed b + 0.8) * sin (degrees 60) /\
   (5 <= scalarSpeed b + 0.8 ->
    Rabs (Ball.vx b') = (scalarSpeed b + 0.8) * cos (degrees 60))).
Proof.
  intros p b r b'.
  destruct (reflectFromPaddle_velocity side s) as (Hvy & _ & _ & _ & Hkeep).
  cbv zeta in Hvy, Hkeep. fold p b b' in Hvy, Hkeep.
  assert (Hang : bounceAngle p b = r * degrees 60) by reflexivity.
  pose proof PI_RGT_0 as Hpi.
  pose proof (scalarSpeed_increased_pos b) as Hc.
  unfold speedIncrease, minHorizontal in *.
  set (c := scalarSpeed b + 0.8) in *.
  assert (Hsin60 : 0 < sin (degrees 60)).
  { rewrite degrees_60, sin_PI3.
    pose proof (sqrt_lt_R0 3 ltac:(lra)). lra. }
  assert (Hcos60 : cos (degrees 60) = 1 / 2) by (rewrite degrees_60; apply cos_PI3).
  assert (Hpos60 : 0 < degrees 60) by (rewrite degrees_60; lra).
  assert (Haway : forall v, 0 <= v -> Rabs (away side * v) = v).
  { intros v Hv. destruct side; unfold away.
    - rewrite Rabs_right; lra.
    - rewrite Rabs_left1; lra. }
  split; [exact Hang|]. split; [rewrite <- Hang; exact Hvy|]. split.
  - intros Hr. assert (Ha : bounceAngle p b = 0) by (rewrite Hang, Hr; ring).
    split; [exact Ha|]. split.
    + rewrite Hvy, Ha, sin_0. ring.
    + apply reflect_away. fold p b. rewrite Ha. lra.
  - intros Hr.
    assert (Hcos : cos (bounceAngle p b) = 1 / 2).
    { rewrite Hang. destruct Hr as [-> | ->].
      - replace (1 * degrees 60) with (degrees 60) by ring. exact Hcos60.
      - replace (-1 * degrees 60) with (- degrees 60) by ring.
        rewrite cos_neg. exact Hcos60. }
    assert (Hvx : 5 <= c -> Rabs (Ball.vx b') = c * cos (degrees 60)).
    { intros Hfast.
      assert (Hmag : Rabs (away side * c * cos (bounceAngle p b)) = c * (1 / 2)).
      { rewrite Hcos, Rmult_assoc. apply Haway. lra. }
      rewrite Hkeep by (rewrite Hmag; lra).
      rewrite Hmag, Hcos60. reflexivity. }
    split; [|split; [|exact Hvx]]; rewrite ?Hvy, Hang.
    + destruct Hr as [-> | ->].
      * replace (1 * degrees 60) with (degrees 60) by ring.
        apply Rabs_right; lra.
      * replace (-1 * degrees 60) with (- degrees 60) by ring.
        rewrite Rabs_left1; lra.
    + destruct Hr as [-> | ->].
      * replace (1 * degrees 60) with (degrees 60) by ring.
        apply Rabs_right; nra.
      * replace (-1 * degrees 60) with (- degrees 60) by ring.
        rewrite sin_neg, Rabs_left1; nra.
Qed.

(** A detected collision bounds the relative intersection. *)
Lemma collision_relativeY (p : Paddle.t) (s : Game) :
  Paddle.height p = PADDLE_HEIGHT -> Ball.radius (ball s) = 9 ->
  paddleCollision p s = true ->
  - (6 / 5) <= relativeY p (ball s) <= 6 / 5.
Proof.
  intros Hh Hr Hcol. unfold paddleCollision in Hcol. cbv zeta in Hcol.
  apply Rleb_true in Hcol. rewrite Hr, Hh in Hcol.
  unfold relativeY. rewrite Hh. unfold PADDLE_HEIGHT in *.
  set (dx := Ball.x (ball s) - _) in Hcol.
  set (dy := Ball.y (ball s) - _) in Hcol.
  assert (Hdy : -9 <= dy <= 9) by nra.
  unfold dy, clamp, Rmax, Rmin in Hdy.
  destruct (Rle_dec (Paddle.y p + 90) (Ball.y (ball s)));
    destruct (Rle_dec (Paddle.y p) _); lra.
Qed.

Lemma collision_angle (p : Paddle.t) (s : Game) :
  Paddle.height p = PADDLE_HEIGHT -> Ball.radius (ball s) = 9 ->
  paddleCollision p s = true ->
  - (PI / 2) < bounceAngle p (ball s) < PI / 2.
Proof.
  intros Hh Hr Hcol.
  pose proof (collision_relativeY p s Hh Hr Hcol) as Hrel.
  pose proof PI_RGT_0 as Hpi.
  unfold bounceAngle, maxAngle. nra.
Qed.

(** C7.  After a paddle bounce the horizontal velocity has magnitude at
    least 2.5 and points away from the paddle that was hit: after a bounce
    off the left paddle vx >= 2.5, after a bounce off the right paddle
    vx <= -2.5.  The magnitude bound holds for the reflection rule at every
    hit position and every speed. *)
Theorem bounce_keeps_horizontal_floor (WIDTH : R) (s : Game) :
  geometry WIDTH s ->
  (forall side t, 2.5 <= Rabs (Ball.vx (ball (reflectFromPaddle side t)))) /\
  (Rltb (Ball.vx (ball s)) 0 && paddleCollision (leftPaddle s) s = true ->
   2.5 <= Ball.vx (ball (paddleBounce s))) /\
  (Rltb (Ball.vx (ball s)) 0 && paddleCollision (leftPaddle s) s = false ->
   Rltb 0 (Ball.vx (ball s)) && paddleCollision (rightPaddle s) s = true ->
   Ball.vx (ball (paddleBounce s)) <= -2.5).
Proof.
  intros (_ & _ & Hlh & _ & _ & Hrh & _ & Hrad).
  split; [exact reflect_floor|]. split.
  - intros Hhit. unfold paddleBounce. rewrite Hhit. cbv zeta.
    apply andb_true_iff in Hhit. destruct Hhit as [_ Hcol].
    match goal with |- context [reflectFromPaddle ?d ?t] =>
      pose proof (reflect_floor d t) as Hfl;
      pose proof (reflect_away d t) as Haw end.
    unfold minHorizontal in Hfl. unfold away in Haw.
    pose proof (collision_angle _ s Hlh Hrad Hcol) as Hang.
    specialize (Haw Hang).
    revert Hfl. unfold Rabs. destruct (Rcase_abs _); lra.
  - intros Hmiss Hhit. unfold paddleBounce. rewrite Hmiss, Hhit. cbv zeta.
    apply andb_true_iff in Hhit. destruct Hhit as [_ Hcol].
    match goal with |- context [reflectFromPaddle ?d ?t] =>
      pose proof (reflect_floor d t) as Hfl;
      pose proof (reflect_away d t) as Haw end.
    unfold minHorizontal in Hfl. unfold away in Haw.
    pose proof (collision_angle _ s Hrh Hrad Hcol) as Hang.
    specialize (Haw Hang).
    revert Hfl. unfold Rabs. destruct (Rcase_abs _); lra.
Qed.

End BounceDirection.

(** ** Serving *)

Section Serve.

Variables WIDTH HEIGHT : R.

Lemma degrees_45 : degrees 45 = PI / 4.
Proof. unfold degrees. lra. Qed.

Lemma serveAngle_bounds (u : R) :
  0 <= u < 1 -> - (PI / 4) <= serveAngle u < PI / 4.
Proof.
  intros Hu. pose proof PI_RGT_0. unfold serveAngle. cbv zeta. nra.
Qed.

(** Within 45 degrees of the horizontal the sine is bounded by the cosine. *)
Lemma sin_within_cos (a : R) :
  - (PI / 4) <= a <= PI / 4 -> 0 < cos a /\ Rabs (sin a) <= cos a.
Proof.
  intros Ha. pose proof PI_RGT_0 as Hpi.
  assert (Hk : 0 < 1 / sqrt 2).
  { apply Rdiv_lt_0_compat; [lra|apply sqrt_lt_R0; lra]. }
  assert (Hminus : 0 <= cos (a - PI / 4)) by (apply cos_ge_0; lra).
  assert (Hplus : 0 <= cos (a + PI / 4)) by (apply cos_ge_0; lra).
  rewrite cos_minus, cos_PI4, sin_PI4 in Hminus.
  rewrite cos_plus, cos_PI4, sin_PI4 in Hplus.
  split.
  - apply cos_gt_0; lra.
  - unfold Rabs. destruct (Rcase_abs (sin a)); nra.
Qed.

Lemma serveSpeed_bounds (p c : nat) : 9 <= serveSpeed p c <= 13.2.
Proof.
  unfold serveSpeed, Rmin. pose proof (pos_INR (p + c)).
  destruct (Rle_dec _ _); lra.
Qed.

(** The ball after a reset with an explicit direction. *)
Lemma resetBall_directed (direction : R) (s : Game) :
  direction <> 0 ->
  let v := serveSpeed (playerScore s) (computerScore s) in
  let a := serveAngle (random s 0%nat) in
  ball (resetBall WIDTH HEIGHT direction s)
  = Ball.mk (WIDTH / 2) (HEIGHT / 2) (Ball.radius (ball s)) v
            (direction * v * cos a) (v * sin a).
Proof.
  intros Hd. unfold resetBall, Math_random, serveSpeed.
  destruct (Req_dec_T direction 0); [contradiction|]. reflexivity.
Qed.

(** The ball after a reset with a random direction. *)
Lemma resetBall_random (s : Game) :
  let v := serveSpeed (playerScore s) (computerScore s) in
  let a := serveAngle (random s 0%nat) in
  let dir := if Rlt_dec (random s 1%nat) 0.5 then -1 else 1 in
  ball (resetBall WIDTH HEIGHT 0 s)
  = Ball.mk (WIDTH / 2) (HEIGHT / 2) (Ball.radius (ball s)) v
            (dir * v * cos a) (v * sin a).
Proof.
  unfold resetBall, Math_random, serveSpeed.
  destruct (Req_dec_T 0 0); [|contradiction]. reflexivity.
Qed.

(** C8.  For every score pair and every draw of the random source (a
    number in [0, 1)), the serve angle has magnitude at most 45 degrees;
    a reset with direction +1 leaves vx > 0 and a reset with direction -1
    leaves vx < 0; in both the velocity is the serve speed at that angle
    off the horizontal, so its vertical part never exceeds its horizontal
    part in magnitude. *)
Theorem serve_direction_and_angle (s : Game) :
  0 <= random s 0%nat < 1 ->
  let a := serveAngle (random s 0%nat) in
  let right := ball (resetBall WIDTH HEIGHT 1 s) in
  let left := ball (resetBall WIDTH HEIGHT (-1) s) in
  Rabs a <= degrees 45 /\
  (0 < Ball.vx right /\
   Ball.vx right = Ball.speed right * cos a /\
   Ball.vy right = Ball.speed right * sin a /\
   Rabs (Ball.vy right) <= Rabs (Ball.vx right)) /\
  (Ball.vx left < 0 /\
   Ball.vx left = - (Ball.speed left * cos a) /\
   Ball.vy left = Ball.speed left * sin a /\
   Rabs (Ball.vy left) <= Rabs (Ball.vx left)).
Proof.
  intros Hu a right left.
  pose proof (serveAngle_bounds _ Hu) as Ha. fold a in Ha.
  destruct (sin_within_cos a ltac:(lra)) as [Hcos Hsin].
  pose proof (serveSpeed_bounds (playerScore s) (computerScore s)) as Hv.
  unfold right, left.
  rewrite (resetBall_directed 1 s) by lra.
  rewrite (resetBall_directed (-1) s) by lra.
  cbv zeta. fold a. simpl.
  set (v := serveSpeed (playerScore s) (computerScore s)) in *.
  assert (Hvsin : Rabs (v * sin a) <= v * cos a).
  { rewrite Rabs_mult, (Rabs_right v) by lra. nra. }
  split; [|split].
  - rewrite degrees_45. unfold Rabs. destruct (Rcase_abs a); lra.
  - repeat split; try nra; try ring.
    rewrite (Rabs_right (1 * v * cos a)) by nra. lra.
  - repeat split; try nra; try ring.
    rewrite (Rabs_left (-1 * v * cos a)) by nra. lra.
Qed.

End Serve.

(** ** Scoring *)

Section Scoring.

Variables WIDTH HEIGHT : R.

Lemma geometry_movePlayer (s : Game) :
  geometry WIDTH s -> geometry WIDTH (movePlayer HEIGHT s).
Proof.
  unfold geometry, movePlayer.
  destruct (ArrowUp (keys s)); destruct (ArrowDown (keys s)); simpl; tauto.
Qed.

Lemma geometry_moveComputer (s : Game) :
  geometry WIDTH s -> geometry WIDTH (moveComputer HEIGHT s).
Proof.
  unfold geometry, moveComputer.
  destruct (Paddle.maxSpeed (rightPaddle s)) eqn:E; [destruct (Rlt_dec _ _)|];
    simpl; rewrite ?E; tauto.
Qed.

Lemma geometry_moveBall (s : Game) :
  geometry WIDTH s -> geometry WIDTH (moveBall s).
Proof. unfold geometry, moveBall; simpl; tauto. Qed.

Lemma geometry_wallCollision (s : Game) :
  geometry WIDTH s -> geometry WIDTH (wallCollision HEIGHT s).
Proof.
  unfold geometry, wallCollision.
  destruct (Rle_dec _ _); [|destruct (Rle_dec _ _)]; simpl; tauto.
Qed.

Lemma geometry_reflectFromPaddle (side : Side) (s : Game) :
  geometry WIDTH s -> geometry WIDTH (reflectFromPaddle side s).
Proof.
  unfold geometry, reflectFromPaddle.
  destruct (Rlt_dec _ _); simpl; tauto.
Qed.

Lemma geometry_paddleBounce (s : Game) :
  geometry WIDTH s -> geometry WIDTH (paddleBounce s).
Proof.
  intros Hg. unfold paddleBounce.
  destruct (_ && _); [|destruct (_ && _)]; cbv zeta;
    try apply geometry_reflectFromPaddle; exact Hg.
Qed.

Lemma geometry_resetBall (d : R) (s : Game) :
  geometry WIDTH s -> geometry WIDTH (resetBall WIDTH HEIGHT d s).
Proof.
  unfold geometry, resetBall, Math_random.
  destruct (Req_dec_T d 0); simpl; tauto.
Qed.

Lemma geometry_scoreCheck (s : Game) :
  geometry WIDTH s -> geometry WIDTH (scoreCheck WIDTH HEIGHT s).
Proof.
  intros Hg. unfold scoreCheck.
  destruct (Rlt_dec _ _); [|destruct (Rlt_dec _ _)]; cbv zeta;
    try exact Hg;
    (destruct (_ <=? _)%nat; [exact Hg|apply geometry_resetBall; exact Hg]).
Qed.

Lemma geometry_update (s : Game) :
  geometry WIDTH s -> geometry WIDTH (update WIDTH HEIGHT s).
Proof.
  intros Hg. rewrite update_unfold.
  destruct (paused s || gameOver s); [exact Hg|].
  apply geometry_scoreCheck, geometry_paddleBounce, geometry_wallCollision,
    geometry_moveBall, geometry_moveComputer, geometry_movePlayer, Hg.
Qed.

(** The script's own start-up satisfies the geometry, and every event
    keeps it: it holds in every state the program reaches. *)
Lemma geometry_kickOff (msg : Message) (rnd : nat -> R) :
  geometry WIDTH (kickOff WIDTH HEIGHT msg rnd).
Proof.
  unfold kickOff.
  assert (Hc : geometry WIDTH (created WIDTH HEIGHT msg rnd)).
  { unfold geometry, created; simpl. repeat split; reflexivity. }
  exact (geometry_resetBall 0 _ Hc).
Qed.

Lemma geometry_handle (e : Event) (s : Game) :
  geometry WIDTH s -> geometry WIDTH (handle WIDTH HEIGHT e s).
Proof.
  intros Hg. destruct e; simpl.
  - apply geometry_update, Hg.
  - unfold keydown.
    repeat (match goal with |- context [String.eqb ?a ?b] => destruct (String.eqb a b) end);
      exact Hg.
  - unfold keyup.
    repeat (match goal with |- context [String.eqb ?a ?b] => destruct (String.eqb a b) end);
      exact Hg.
  - unfold mousemove, geometry in *; simpl; tauto.
  - unfold touchmove, geometry in *; simpl; tauto.
  - unfold start, loop. apply geometry_update.
    exact (geometry_resetBall 0 s Hg).
  - apply geometry_resetBall, Hg.
Qed.

Lemma geometry_run (es : list Event) (s : Game) :
  geometry WIDTH s -> geometry WIDTH (run WIDTH HEIGHT es s).
Proof.
  revert s. induction es as [|e es IH]; intros s Hg; simpl.
  - exact Hg.
  - apply IH, geometry_handle, Hg.
Qed.

(** The ball as the paddle test finds it. *)
Lemma before_paddles_ball (s : Game) :
  let t := wallCollision HEIGHT (moveBall (moveComputer HEIGHT (movePlayer HEIGHT s))) in
  Ball.x (ball t) = Ball.x (ball s) + Ball.vx (ball s) /\
  Ball.vx (ball t) = Ball.vx (ball s).
Proof.
  unfold wallCollision.
  destruct (Rle_dec _ _); [|destruct (Rle_dec _ _)]; split; reflexivity.
Qed.

Lemma miss_left (t : Game) :
  geometry WIDTH t -> Ball.x (ball t) < -9 ->
  paddleCollision (leftPaddle t) t = false.
Proof.
  intros (Hx & Hw & _ & _ & _ & _ & _ & Hr) Hout.
  apply Rleb_false. rewrite Hx, Hw, Hr. unfold PADDLE_WIDTH.
  set (dy := Ball.y (ball t) - _).
  unfold clamp, Rmax, Rmin.
  destruct (Rle_dec (20 + 12) (Ball.x (ball t))); [lra|].
  destruct (Rle_dec 20 (Ball.x (ball t))); [lra|]. nra.
Qed.

Lemma miss_right (t : Game) :
  geometry WIDTH t -> WIDTH + 9 < Ball.x (ball t) ->
  paddleCollision (rightPaddle t) t = false.
Proof.
  intros (_ & _ & _ & Hx & Hw & _ & _ & Hr) Hout.
  apply Rleb_false. rewrite Hx, Hw, Hr. unfold PADDLE_WIDTH.
  set (dy := Ball.y (ball t) - _).
  unfold clamp, Rmax, Rmin.
  destruct (Rle_dec (WIDTH - 12 - 20 + 12) (Ball.x (ball t))); [|lra].
  destruct (Rle_dec (WIDTH - 12 - 20) (WIDTH - 12 - 20 + 12)); [|lra]. nra.
Qed.

(** A ball that is past the left bound after its translation, and not
    moving right, meets no paddle: the score check sees it there. *)
Lemma physics_exit_left (s : Game) :
  geometry WIDTH s ->
  Ball.vx (ball s) <= 0 -> Ball.x (ball s) + Ball.vx (ball s) < -9 ->
  Ball.x (ball (physics HEIGHT s)) = Ball.x (ball s) + Ball.vx (ball s).
Proof.
  intros Hg Hvx Hout. unfold physics.
  pose proof (before_paddles_ball s) as [Ex Ev]. cbv zeta in Ex, Ev.
  set (t := wallCollision HEIGHT _) in *.
  assert (Hgt : geometry WIDTH t).
  { apply geometry_wallCollision, geometry_moveBall, geometry_moveComputer,
      geometry_movePlayer, Hg. }
  unfold paddleBounce.
  rewrite (miss_left t Hgt) by lra. rewrite andb_false_r.
  assert (Rltb 0 (Ball.vx (ball t)) = false) as -> by (apply Rltb_false; lra).
  simpl. exact Ex.
Qed.

Lemma physics_exit_right (s : Game) :
  geometry WIDTH s ->
  0 <= Ball.vx (ball s) -> WIDTH + 9 < Ball.x (ball s) + Ball.vx (ball s) ->
  Ball.x (ball (physics HEIGHT s)) = Ball.x (ball s) + Ball.vx (ball s).
Proof.
  intros Hg Hvx Hout. unfold physics.
  pose proof (before_paddles_ball s) as [Ex Ev]. cbv zeta in Ex, Ev.
  set (t := wallCollision HEIGHT _) in *.
  assert (Hgt : geometry WIDTH t).
  { apply geometry_wallCollision, geometry_moveBall, geometry_moveComputer,
      geometry_movePlayer, Hg. }
  unfold paddleBounce.
  assert (Rltb (Ball.vx (ball t)) 0 = false) as -> by (apply Rltb_false; lra).
  rewrite (miss_right t Hgt) by lra. rewrite andb_false_r.
  simpl. exact Ex.
Qed.

(** What a frame does when the ball has left on the left. *)
Lemma update_exit_left (s : Game) :
  geometry WIDTH s -> paused s = false -> gameOver s = false ->
  Ball.vx (ball s) <= 0 -> Ball.x (ball s) + Ball.vx (ball s) < -9 ->
  let s' := update WIDTH HEIGHT s in
  computerScore s' = S (computerScore s) /\
  playerScore s' = playerScore s /\
  ((WIN_SCORE <= S (computerScore s))%nat -> gameOver s' = true) /\
  ((S (computerScore s) < WIN_SCORE)%nat ->
   ball s' = Ball.mk (WIDTH / 2) (HEIGHT / 2) 9
               (serveSpeed (playerScore s) (S (computerScore s)))
               (1 * serveSpeed (playerScore s) (S (computerScore s))
                  * cos (serveAngle (random s 0%nat)))
               (serveSpeed (playerScore s) (S (computerScore s))
                  * sin (serveAngle (random s 0%nat)))).
Proof.
  intros Hg Hp Ho Hvx Hout s'. unfold s'.
  rewrite update_unfold, Hp, Ho. cbn [orb].
  pose proof (physics_exit_left s Hg Hvx Hout) as Ex.
  destruct (physics_same HEIGHT s) as [_ _ Epl Eco _ _ Ernd Erad _].
  assert (Hr : Ball.radius (ball s) = 9) by apply Hg.
  unfold scoreCheck.
  destruct (Rlt_dec _ _) as [_|Hn]; [|exfalso; apply Hn; rewrite Ex, Erad, Hr; lra].
  cbv zeta.
  cbn [computerScore playerScore updateScoreboard set_scoreEls set_computerScore].
  rewrite Eco.
  destruct (WIN_SCORE <=? S (computerScore s))%nat eqn:Hwin.
  - apply Nat.leb_le in Hwin. repeat split; try (simpl; congruence).
    intros. lia.
  - apply Nat.leb_gt in Hwin.
    match goal with |- context [resetBall _ _ ?d ?t] =>
      destruct (resetBall_flags WIDTH HEIGHT d t) as (_ & _ & -> & -> & _);
      rewrite (resetBall_directed WIDTH HEIGHT d t) by lra end.
    cbn [computerScore playerScore updateScoreboard set_scoreEls set_computerScore
         random ball].
    rewrite Epl, Ernd, Erad, Hr.
    repeat split; try reflexivity. intros; lia.
Qed.

(** What a frame does when the ball has left on the right. *)
Lemma update_exit_right (s : Game) :
  geometry WIDTH s -> 0 <= WIDTH -> paused s = false -> gameOver s = false ->
  0 <= Ball.vx (ball s) -> WIDTH + 9 < Ball.x (ball s) + Ball.vx (ball s) ->
  let s' := update WIDTH HEIGHT s in
  playerScore s' = S (playerScore s) /\
  computerScore s' = computerScore s /\
  ((WIN_SCORE <= S (playerScore s))%nat -> gameOver s' = true) /\
  ((S (playerScore s) < WIN_SCORE)%nat ->
   ball s' = Ball.mk (WIDTH / 2) (HEIGHT / 2) 9
               (serveSpeed (S (playerScore s)) (computerScore s))
               (-1 * serveSpeed (S (playerScore s)) (computerScore s)
                   * cos (serveAngle (random s 0%nat)))
               (serveSpeed (S (playerScore s)) (computerScore s)
                  * sin (serveAngle (random s 0%nat)))).
Proof.
  intros Hg Hw Hp Ho Hvx Hout s'. unfold s'.
  rewrite update_unfold, Hp, Ho. cbn [orb].
  pose proof (physics_exit_right s Hg Hvx Hout) as Ex.
  destruct (physics_same HEIGHT s) as [_ _ Epl Eco _ _ Ernd Erad _].
  assert (Hr : Ball.radius (ball s) = 9) by apply Hg.
  unfold scoreCheck.
  destruct (Rlt_dec _ _) as [Hy|_]; [exfalso; rewrite Ex, Erad, Hr in Hy; lra|].
  destruct (Rlt_dec _ _) as [_|Hn]; [|exfalso; apply Hn; rewrite Ex, Erad, Hr; lra].
  cbv zeta.
  cbn [computerScore playerScore updateScoreboard set_scoreEls set_playerScore].
  rewrite Epl.
  destruct (WIN_SCORE <=? S (playerScore s))%nat eqn:Hwin.
  - apply Nat.leb_le in Hwin. repeat split; try (simpl; congruence).
    intros. lia.
  - apply Nat.leb_gt in Hwin.
    match goal with |- context [resetBall _ _ ?d ?t] =>
      destruct (resetBall_flags WIDTH HEIGHT d t) as (_ & _ & -> & -> & _);
      rewrite (resetBall_directed WIDTH HEIGHT d t) by lra end.
    cbn [computerScore playerScore updateScoreboard set_scoreEls set_playerScore
         random ball].
    rewrite Eco, Ernd, Erad, Hr.
    repeat split; try reflexivity. intros; lia.
Qed.

(** A ball past the left bound can only touch the right paddle, and one
    past the right bound the left paddle, on a playfield narrower than 32. *)
Lemma hit_right_narrow (t : Game) :
  geometry WIDTH t -> Ball.x (ball t) < -9 ->
  paddleCollision (rightPaddle t) t = true -> WIDTH < 32.
Proof.
  intros (_ & _ & _ & Hx & Hw & _ & _ & Hr) Hout Hcol.
  unfold paddleCollision in Hcol. cbv zeta in Hcol. apply Rleb_true in Hcol.
  rewrite Hx, Hw, Hr in Hcol. unfold PADDLE_WIDTH in Hcol.
  pose proof (clamp_bounds (Ball.x (ball t)) (WIDTH - 12 - 20) (WIDTH - 12 - 20 + 12)
                ltac:(lra)) as Hc.
  set (cx := clamp (Ball.x (ball t)) _ _) in *.
  set (dy := Ball.y (ball t) - _) in *.
  assert (Hdx : -9 <= Ball.x (ball t) - cx) by nra.
  lra.
Qed.

Lemma hit_left_narrow (t : Game) :
  geometry WIDTH t -> WIDTH + 9 < Ball.x (ball t) ->
  paddleCollision (leftPaddle t) t = true -> WIDTH < 32.
Proof.
  intros (Hx & Hw & _ & _ & _ & _ & _ & Hr) Hout Hcol.
  unfold paddleCollision in Hcol. cbv zeta in Hcol. apply Rleb_true in Hcol.
  rewrite Hx, Hw, Hr in Hcol. unfold PADDLE_WIDTH in Hcol.
  pose proof (clamp_bounds (Ball.x (ball t)) 20 (20 + 12) ltac:(lra)) as Hc.
  set (cx := clamp (Ball.x (ball t)) _ _) in *.
  set (dy := Ball.y (ball t) - _) in *.
  assert (Hdx : Ball.x (ball t) - cx <= 9) by nra.
  lra.
Qed.

(** A ball that is past the left bound after its translation is still
    past it when the score check runs, whichever way it moves. *)
Lemma physics_past_left (s : Game) :
  geometry WIDTH s ->
  Ball.x (ball s) + Ball.vx (ball s) < -9 ->
  Ball.x (ball (physics HEIGHT s)) < -9.
Proof.
  intros Hg Hout. unfold physics.
  pose proof (before_paddles_ball s) as [Ex _]. cbv zeta in Ex.
  set (t := wallCollision HEIGHT _) in *.
  assert (Hgt : geometry WIDTH t).
  { apply geometry_wallCollision, geometry_moveBall, geometry_moveComputer,
      geometry_movePlayer, Hg. }
  unfold paddleBounce.
  rewrite (miss_left t Hgt) by lra. rewrite andb_false_r.
  destruct (Rltb 0 (Ball.vx (ball t)) && paddleCollision (rightPaddle t) t) eqn:Hhit.
  - apply andb_true_iff in Hhit. destruct Hhit as [_ Hcol].
    pose proof (hit_right_narrow t Hgt ltac:(lra) Hcol) as Hnarrow.
    cbv zeta.
    match goal with |- context [reflectFromPaddle ?d ?u] =>
      destruct (reflectFromPaddle_velocity d u) as (_ & -> & _) end.
    destruct Hgt as (_ & _ & _ & Hx & _ & _ & _ & Hr).
    simpl. rewrite Hx, Hr. unfold PADDLE_WIDTH. lra.
  - lra.
Qed.

Lemma physics_past_right (s : Game) :
  geometry WIDTH s ->
  WIDTH + 9 < Ball.x (ball s) + Ball.vx (ball s) ->
  WIDTH + 9 < Ball.x (ball (physics HEIGHT s)).
Proof.
  intros Hg Hout. unfold physics.
  pose proof (before_paddles_ball s) as [Ex _]. cbv zeta in Ex.
  set (t := wallCollision HEIGHT _) in *.
  assert (Hgt : geometry WIDTH t).
  { apply geometry_wallCollision, geometry_moveBall, geometry_moveComputer,
      geometry_movePlayer, Hg. }
  unfold paddleBounce.
  destruct (Rltb (Ball.vx (ball t)) 0 && paddleCollision (leftPaddle t) t) eqn:Hhit.
  - apply andb_true_iff in Hhit. destruct Hhit as [_ Hcol].
    pose proof (hit_left_narrow t Hgt ltac:(lra) Hcol) as Hnarrow.
    cbv zeta.
    match goal with |- context [reflectFromPaddle ?d ?u] =>
      destruct (reflectFromPaddle_velocity d u) as (_ & -> & _) end.
    destruct Hgt as (Hx & Hw & _ & _ & _ & _ & _ & Hr).
    simpl. rewrite Hx, Hw, Hr. unfold PADDLE_WIDTH. lra.
  - rewrite (miss_right t Hgt) by lra. rewrite andb_false_r. lra.
Qed.

(** What the score check does with a ball it finds past the left bound. *)
Lemma update_scores_left (s : Game) :
  geometry WIDTH s -> paused s = false -> gameOver s = false ->
  Ball.x (ball (physics HEIGHT s)) < -9 ->
  let s' := update WIDTH HEIGHT s in
  computerScore s' = S (computerScore s) /\
  playerScore s' = playerScore s /\
  ((S (computerScore s) < WIN_SCORE)%nat ->
   ball s' = Ball.mk (WIDTH / 2) (HEIGHT / 2) 9
               (serveSpeed (playerScore s) (S (computerScore s)))
               (1 * serveSpeed (playerScore s) (S (computerScore s))
                  * cos (serveAngle (random s 0%nat)))
               (serveSpeed (playerScore s) (S (computerScore s))
                  * sin (serveAngle (random s 0%nat)))).
Proof.
  intros Hg Hp Ho Hpast s'. unfold s'.
  rewrite update_unfold, Hp, Ho. cbn [orb].
  destruct (physics_same HEIGHT s) as [_ _ Epl Eco _ _ Ernd Erad _].
  assert (Hr : Ball.radius (ball s) = 9) by apply Hg.
  unfold scoreCheck.
  destruct (Rlt_dec _ _) as [_|Hn]; [|exfalso; apply Hn; rewrite Erad, Hr; lra].
  cbv zeta.
  cbn [computerScore playerScore updateScoreboard set_scoreEls set_computerScore].
  rewrite Eco.
  destruct (WIN_SCORE <=? S (computerScore s))%nat eqn:Hwin.
  - apply Nat.leb_le in Hwin. repeat split; try (simpl; congruence).
    intros. lia.
  - apply Nat.leb_gt in Hwin.
    match goal with |- context [resetBall _ _ ?d ?t] =>
      destruct (resetBall_flags WIDTH HEIGHT d t) as (_ & _ & -> & -> & _);
      rewrite (resetBall_directed WIDTH HEIGHT d t) by lra end.
    cbn [computerScore playerScore updateScoreboard set_scoreEls set_computerScore
         random ball].
    rewrite Epl, Ernd, Erad, Hr.
    repeat split; reflexivity.
Qed.

(** What the score check does with a ball it finds past the right bound. *)
Lemma update_scores_right (s : Game) :
  geometry WIDTH s -> 0 <= WIDTH -> paused s = false -> gameOver s = false ->
  WIDTH + 9 < Ball.x (ball (physics HEIGHT s)) ->
  let s' := update WIDTH HEIGHT s in
  playerScore s' = S (playerScore s) /\
  computerScore s' = computerScore s /\
  ((S (playerScore s) < WIN_SCORE)%nat ->
   ball s' = Ball.mk (WIDTH / 2) (HEIGHT / 2) 9
               (serveSpeed (S (playerScore s)) (computerScore s))
               (-1 * serveSpeed (S (playerScore s)) (computerScore s)
                   * cos (serveAngle (random s 0%nat)))
               (serveSpeed (S (playerScore s)) (computerScore s)
                  * sin (serveAngle (random s 0%nat)))).
Proof.
  intros Hg Hw Hp Ho Hpast s'. unfold s'.
  rewrite update_unfold, Hp, Ho. cbn [orb].
  destruct (physics_same HEIGHT s) as [_ _ Epl Eco _ _ Ernd Erad _].
  assert (Hr : Ball.radius (ball s) = 9) by apply Hg.
  unfold scoreCheck.
  destruct (Rlt_dec _ _) as [Hy|_]; [exfalso; rewrite Erad, Hr in Hy; lra|].
  destruct (Rlt_dec _ _) as [_|Hn]; [|exfalso; apply Hn; rewrite Erad, Hr; lra].
  cbv zeta.
  cbn [computerScore playerScore updateScoreboard set_scoreEls set_playerScore].
  rewrite Epl.
  destruct (WIN_SCORE <=? S (playerScore s))%nat eqn:Hwin.
  - apply Nat.leb_le in Hwin. repeat split; try (simpl; congruence).
    intros. lia.
  - apply Nat.leb_gt in Hwin.
    match goal with |- context [resetBall _ _ ?d ?t] =>
      destruct (resetBall_flags WIDTH HEIGHT d t) as (_ & _ & -> & -> & _);
      rewrite (resetBall_directed WIDTH HEIGHT d t) by lra end.
    cbn [computerScore playerScore updateScoreboard set_scoreEls set_playerScore
         random ball].
    rewrite Eco, Ernd, Erad, Hr.
    repeat split; reflexivity.
Qed.

End Scoring.

(** ** Points and serves *)

Section Points.

Variables WIDTH HEIGHT : R.

(** C3 (as amended).  In a running match with the ball's centre at
    x = -radius-1 and still beyond the left edge after the step's
    translation (x + vx < -radius), one simulation step adds exactly one
    to the right side's score and leaves the left side's; when the new
    score is below the win threshold the ball is back at the centre and
    served left-to-right (vx > 0).  Symmetrically, with the centre at
    x = WIDTH+radius+1 and still beyond the right edge after the
    translation (x + vx > WIDTH + radius), the left side's score grows by
    one and the serve has vx < 0. *)
Theorem exit_scores_once_and_serves (s : Game) :
  geometry WIDTH s -> 0 <= WIDTH -> 0 <= random s 0%nat < 1 ->
  paused s = false -> gameOver s = false ->
  let s' := update WIDTH HEIGHT s in
  (Ball.x (ball s) = - Ball.radius (ball s) - 1 ->
   Ball.x (ball s) + Ball.vx (ball s) < - Ball.radius (ball s) ->
   computerScore s' = S (computerScore s) /\ playerScore s' = playerScore s /\
   ((S (computerScore s) < WIN_SCORE)%nat ->
    Ball.x (ball s') = WIDTH / 2 /\ Ball.y (ball s') = HEIGHT / 2 /\
    0 < Ball.vx (ball s'))) /\
  (Ball.x (ball s) = WIDTH + Ball.radius (ball s) + 1 ->
   WIDTH + Ball.radius (ball s) < Ball.x (ball s) + Ball.vx (ball s) ->
   playerScore s' = S (playerScore s) /\ computerScore s' = computerScore s /\
   ((S (playerScore s) < WIN_SCORE)%nat ->
    Ball.x (ball s') = WIDTH / 2 /\ Ball.y (ball s') = HEIGHT / 2 /\
    Ball.vx (ball s') < 0)).
Proof.
  intros Hg Hw Hu Hp Ho s'.
  assert (Hr : Ball.radius (ball s) = 9) by apply Hg.
  pose proof (serveAngle_bounds _ Hu) as Ha.
  destruct (sin_within_cos (serveAngle (random s 0%nat)) ltac:(lra)) as [Hcos _].
  split.
  - intros _ Hout. rewrite Hr in Hout.
    pose proof (physics_past_left WIDTH HEIGHT s Hg ltac:(lra)) as Hpast.
    destruct (update_scores_left WIDTH HEIGHT s Hg Hp Ho Hpast)
      as (Ec & Epl & Eball).
    fold s' in Ec, Epl, Eball.
    split; [exact Ec|]. split; [exact Epl|].
    intros Hlt. rewrite (Eball Hlt). simpl.
    pose proof (serveSpeed_bounds (playerScore s) (S (computerScore s))).
    repeat split. nra.
  - intros _ Hout. rewrite Hr in Hout.
    pose proof (physics_past_right WIDTH HEIGHT s Hg ltac:(lra)) as Hpast.
    destruct (update_scores_right WIDTH HEIGHT s Hg Hw Hp Ho Hpast)
      as (Epl & Ec & Eball).
    fold s' in Ec, Epl, Eball.
    split; [exact Epl|]. split; [exact Ec|].
    intros Hlt. rewrite (Eball Hlt). simpl.
    pose proof (serveSpeed_bounds (S (playerScore s)) (computerScore s)).
    repeat split. nra.
Qed.

End Points.

(** ** Concrete runs *)

Lemma sampleGame_geometry (bx bvx : R) (p c : nat) :
  geometry 800 (sampleGame bx bvx p c).
Proof.
  unfold geometry, sampleGame, PADDLE_WIDTH, PADDLE_HEIGHT; simpl.
  repeat split; try reflexivity; lra.
Qed.

(** C9, as first stated, fails on a canvas lower than a paddle: started
    on an 800 by 60 canvas, the script's paddles are 90 high; a pointer
    move, and a frame, put the left paddle at y = 0, which is above the
    upper end 60 - 90 of the range. *)
Lemma paddle_taller_than_canvas_leaves_range :
  let s := kickOff 800 60 (mkMessage true EmptyString) (fun _ => 1 / 2) in
  Paddle.height (leftPaddle s) = 90 /\
  matchState s = Running /\
  Paddle.y (leftPaddle (mousemove 60 30 0 60 s)) = 0 /\
  ~ in_range 60 (leftPaddle (mousemove 60 30 0 60 s)) /\
  Paddle.y (leftPaddle (update 800 60 s)) = 0 /\
  ~ in_range 60 (leftPaddle (update 800 60 s)).
Proof.
  cbv zeta.
  set (s := kickOff 800 60 (mkMessage true EmptyString) (fun _ => 1 / 2)).
  assert (Hflags : paused s = false /\ gameOver s = false /\
                   leftPaddle s = Paddle.mk 20 ((60 - PADDLE_HEIGHT) / 2)
                                    PADDLE_WIDTH PADDLE_HEIGHT 0 None /\
                   keys s = mkKeys false false).
  { unfold s, kickOff.
    destruct (resetBall_flags 800 60 0
                (created 800 60 (mkMessage true EmptyString) (fun _ => 1 / 2)))
      as (Ep & Eo & _ & _ & _ & El & _).
    cbn [paused gameOver leftPaddle keys updateScoreboard set_scoreEls].
    rewrite Ep, Eo, El. repeat split.
    unfold resetBall, Math_random. destruct (Req_dec_T 0 0); reflexivity. }
  destruct Hflags as (Hp & Ho & Hl & Hk).
  assert (Hmouse : Paddle.y (leftPaddle (mousemove 60 30 0 60 s)) = 0).
  { unfold mousemove. cbn [leftPaddle set_leftPaddle Paddle.y Paddle.set_y].
    rewrite Hl. cbn [Paddle.height]. unfold PADDLE_HEIGHT.
    unfold clamp, Rmax, Rmin.
    destruct (Rle_dec (60 - 90) _); destruct (Rle_dec 0 _); lra. }
  assert (Hframe : Paddle.y (leftPaddle (update 800 60 s)) = 0).
  { destruct (update_paddles 800 60 s Hp Ho) as [-> _].
    change (leftPaddle (moveComputer 60 (movePlayer 60 s)))
      with (leftPaddle (movePlayer 60 s)).
    unfold movePlayer. cbv zeta. rewrite Hk, Hl.
    cbn [ArrowUp ArrowDown leftPaddle set_leftPaddle Paddle.y Paddle.set_y Paddle.height].
    unfold PADDLE_HEIGHT, clamp, Rmax, Rmin.
    destruct (Rle_dec (60 - 90) _); destruct (Rle_dec 0 _); lra. }
  assert (Hh : forall t, Paddle.height (leftPaddle t) = 90 ->
                 Paddle.y (leftPaddle t) = 0 -> ~ in_range 60 (leftPaddle t)).
  { intros t Eh Ey [_ Hup]. rewrite Eh, Ey in Hup. lra. }
  split; [rewrite Hl; reflexivity|].
  split; [unfold matchState; rewrite Ho, Hp; reflexivity|].
  split; [exact Hmouse|]. split.
  - apply Hh; [|exact Hmouse]. unfold mousemove.
    cbn [leftPaddle set_leftPaddle Paddle.height Paddle.set_y]. rewrite Hl. reflexivity.
  - split; [exact Hframe|]. apply Hh; [|exact Hframe].
    destruct (update_paddles 800 60 s Hp Ho) as [-> _].
    change (leftPaddle (moveComputer 60 (movePlayer 60 s)))
      with (leftPaddle (movePlayer 60 s)).
    unfold movePlayer. cbv zeta. rewrite Hk, Hl. reflexivity.
Qed.

(** C3, as first stated, fails: a running match whose ball has its centre
    at x = -radius-1 but moves right at 5 per frame is back inside the
    left bound after the translation, and the step scores nothing. *)
Lemma returning_ball_scores_nothing :
  let s := sampleGame (-10) 5 0 0 in
  matchState s = Running /\
  Ball.x (ball s) = - Ball.radius (ball s) - 1 /\
  computerScore (update 800 600 s) = computerScore s /\
  playerScore (update 800 600 s) = playerScore s.
Proof.
  cbv zeta. split; [reflexivity|]. split; [simpl; lra|].
  rewrite update_unfold. cbn [paused gameOver sampleGame orb].
  set (s := sampleGame (-10) 5 0 0).
  destruct (physics_same 600 s) as [_ _ Epl Eco _ _ _ Erad _].
  assert (Ex : Ball.x (ball (physics 600 s)) = -5).
  { unfold physics.
    pose proof (before_paddles_ball 600 s) as [Ex Ev]. cbv zeta in Ex, Ev.
    set (t := wallCollision 600 _) in *.
    assert (Hgt : geometry 800 t).
    { apply geometry_wallCollision, geometry_moveBall, geometry_moveComputer,
        geometry_movePlayer, sampleGame_geometry. }
    simpl in Ex, Ev.
    unfold paddleBounce.
    assert (Rltb (Ball.vx (ball t)) 0 = false) as -> by (apply Rltb_false; lra).
    assert (paddleCollision (rightPaddle t) t = false) as ->.
    { destruct Hgt as (_ & _ & _ & Hx & Hw & _ & _ & Hr).
      apply Rleb_false. rewrite Hx, Hw, Hr, Ex. unfold PADDLE_WIDTH.
      set (dy := Ball.y (ball t) - _).
      unfold clamp, Rmax, Rmin.
      destruct (Rle_dec (800 - 12 - 20 + 12) (-10 + 5)); [lra|].
      destruct (Rle_dec (800 - 12 - 20) (-10 + 5)); [lra|]. nra. }
    rewrite andb_false_r. simpl. lra. }
  unfold scoreCheck. rewrite Ex, Erad. simpl Ball.radius.
  destruct (Rlt_dec _ _); [lra|].
  destruct (Rlt_dec _ _); [lra|].
  split; [exact Eco|exact Epl].
Qed.

(** ** The start entry point *)

Section Start.

Variables WIDTH HEIGHT : R.

Lemma paddleBounce_ball_x (t : Game) :
  Ball.x (ball (paddleBounce t)) = Ball.x (ball t) \/
  Ball.x (ball (paddleBounce t))
  = Paddle.x (leftPaddle t) + Paddle.width (leftPaddle t) + Ball.radius (ball t) \/
  Ball.x (ball (paddleBounce t)) = Paddle.x (rightPaddle t) - Ball.radius (ball t).
Proof.
  unfold paddleBounce.
  destruct (_ && _); [|destruct (_ && _)]; cbv zeta.
  - right; left.
    match goal with |- context [reflectFromPaddle ?d ?u] =>
      destruct (reflectFromPaddle_velocity d u) as (_ & -> & _) end.
    reflexivity.
  - right; right.
    match goal with |- context [reflectFromPaddle ?d ?u] =>
      destruct (reflectFromPaddle_velocity d u) as (_ & -> & _) end.
    reflexivity.
  - left; reflexivity.
Qed.

Lemma scoreCheck_inside (t : Game) :
  - Ball.radius (ball t) <= Ball.x (ball t) <= WIDTH + Ball.radius (ball t) ->
  scoreCheck WIDTH HEIGHT t = t.
Proof.
  intros Hin. unfold scoreCheck.
  destruct (Rlt_dec _ _); [lra|]. destruct (Rlt_dec _ _); [lra|]. reflexivity.
Qed.

(** A frame that starts with the ball near the centre line scores nothing. *)
Lemma update_from_centre (t : Game) :
  geometry WIDTH t -> 32 <= WIDTH ->
  Ball.x (ball t) = WIDTH / 2 -> Rabs (Ball.vx (ball t)) <= 13.2 ->
  Ball.speed (ball (update WIDTH HEIGHT t)) = Ball.speed (ball t) /\
  playerScore (update WIDTH HEIGHT t) = playerScore t /\
  computerScore (update WIDTH HEIGHT t) = computerScore t.
Proof.
  intros Hg Hw Hx Hvx. rewrite update_unfold.
  destruct (paused t || gameOver t); [repeat split|].
  destruct (physics_same HEIGHT t) as [_ _ Epl Eco _ _ _ Erad Espeed].
  rewrite scoreCheck_inside; [repeat split; assumption|].
  rewrite Erad. unfold physics.
  pose proof (before_paddles_ball HEIGHT t) as [Ex _]. cbv zeta in Ex.
  set (u := wallCollision HEIGHT _) in *.
  assert (Hgu : geometry WIDTH u).
  { apply geometry_wallCollision, geometry_moveBall, geometry_moveComputer,
      geometry_movePlayer, Hg. }
  destruct Hgu as (Hlx & Hlw & _ & Hrx & _ & _ & _ & Hru).
  assert (Hr : Ball.radius (ball t) = 9) by apply Hg.
  rewrite Hr. unfold PADDLE_WIDTH in *.
  assert (Hv : -13.2 <= Ball.vx (ball t) <= 13.2).
  { revert Hvx. unfold Rabs. destruct (Rcase_abs _); lra. }
  destruct (paddleBounce_ball_x u) as [E|[E|E]]; rewrite E;
    rewrite ?Ex, ?Hlx, ?Hlw, ?Hrx, ?Hru, ?Hx; lra.
Qed.

(** The script's own kick-off serves at the base speed: both scores are
    still zero when it resets the ball. *)
Lemma kickOff_speed (msg : Message) (rnd : nat -> R) :
  Ball.speed (ball (kickOff WIDTH HEIGHT msg rnd)) = 9.
Proof.
  unfold kickOff. cbn [updateScoreboard set_scoreEls ball].
  rewrite resetBall_random. cbn [Ball.speed].
  unfold serveSpeed, Rmin. simpl. destruct (Rle_dec _ _); lra.
Qed.

(** C5 (the code at work).  On a playfield at least 32 wide, the ball that
    [start] serves carries the speed of the reset formula evaluated at the
    scores the match had before the call, not at the zeroed scores; the
    scores themselves are zero afterwards. *)
Theorem start_serves_at_previous_scores (s : Game) :
  geometry WIDTH s -> 32 <= WIDTH ->
  Ball.speed (ball (start WIDTH HEIGHT s))
  = 9 + Rmin (INR (playerScore s + computerScore s)) 12 * 0.35 /\
  playerScore (start WIDTH HEIGHT s) = 0%nat /\
  computerScore (start WIDTH HEIGHT s) = 0%nat.
Proof.
  intros Hg Hw. unfold start, loop. cbv zeta.
  set (t := updateScoreboard _).
  assert (Hball : ball t = ball (resetBall WIDTH HEIGHT 0 s)) by reflexivity.
  rewrite resetBall_random in Hball. cbv zeta in Hball.
  assert (Hgt : geometry WIDTH t).
  { pose proof (geometry_resetBall WIDTH HEIGHT 0 s Hg) as G. exact G. }
  pose proof (serveSpeed_bounds (playerScore s) (computerScore s)) as Hv.
  pose proof (COS_bound (serveAngle (random s 0%nat))) as Hcos.
  destruct (update_from_centre t Hgt Hw) as (-> & -> & ->).
  - rewrite Hball. reflexivity.
  - rewrite Hball. simpl.
    apply Rabs_le. destruct (Rlt_dec _ _); nra.
  - rewrite Hball. repeat split.
Qed.

End Start.

(** ** The pause key *)

Section PauseKey.

Lemma space_toggles (s : Game) :
  paused (keydown "Space" s) = negb (paused s) /\
  gameOver (keydown "Space" s) = gameOver s /\
  messageEl (keydown "Space" s)
  = mkMessage (paused s) (if paused s then EmptyString else "Paused"%string).
Proof.
  unfold keydown. simpl. destruct (paused s); repeat split.
Qed.

(** C4 (the code at work).  While the match is running or paused the
    Space key flips between Running and Paused.  After [endGame] the match
    is Over, paused, and shows the result; a Space press then leaves the
    game-over flag but clears the paused flag and replaces the result by an
    empty, hidden message. *)
Theorem space_after_endGame_changes_state (playerWon : bool) (s0 : Game) :
  let s := endGame playerWon s0 in
  let s' := keydown "Space" s in
  (forall t, gameOver t = false ->
     matchState (keydown "Space" t) = if paused t then Running else Paused) /\
  matchState s = Over /\ matchState s' = Over /\
  paused s = true /\ paused s' = false /\
  hidden (messageEl s) = false /\
  messageEl s' = mkMessage true EmptyString /\
  messageEl s' <> messageEl s.
Proof.
  cbv zeta. split.
  - intros t Ht. destruct (space_toggles t) as (Hp & Ho & _).
    unfold matchState. rewrite Ho, Ht, Hp. destruct (paused t); reflexivity.
  - repeat split; try reflexivity. discriminate.
Qed.

End PauseKey.

(** ** The theorems at work on the concrete match *)

(** The left side trails 0 to 9 and the ball has just left on the left:
    the frame ends the match, and later frames and key presses change
    nothing through [update]. *)
Lemma win_ends_match_at_nine :
  let s := sampleGame (-10) 0 0 9 in
  let es := [Frame; KeyDown "Space"; Frame; PongStart; Frame] in
  computerScore (update 800 600 s) = WIN_SCORE /\
  matchState (update 800 600 s) = Over /\
  update 800 600 (run 800 600 es (update 800 600 s))
  = run 800 600 es (update 800 600 s).
Proof.
  cbv zeta.
  assert (Hten : computerScore (update 800 600 (sampleGame (-10) 0 0 9)) = WIN_SCORE).
  { destruct (update_exit_left 800 600 (sampleGame (-10) 0 0 9)
                (sampleGame_geometry _ _ _ _) eq_refl eq_refl) as [E _].
    - simpl; lra.
    - simpl; lra.
    - exact E. }
  split; [exact Hten|].
  destruct (win_ends_match_and_freezes_update 800 600 (sampleGame (-10) 0 0 9)
              [Frame; KeyDown "Space"; Frame; PongStart; Frame]) as (H1 & _ & H3).
  - right. split; [exact Hten|discriminate].
  - split; [exact H1|exact H3].
Defined.

(** Both paddles of the concrete match fit the 600-high playfield. *)
Lemma paddles_in_range_on_sample :
  let s := sampleGame 400 5 0 0 in
  in_range 600 (leftPaddle (update 800 600 s)) /\
  in_range 600 (rightPaddle (update 800 600 s)) /\
  in_range 600 (leftPaddle (mousemove 600 1000000 0 300 s)) /\
  in_range 600 (leftPaddle (touchmove 600 (-1000000) 0 300 s)).
Proof.
  cbv zeta.
  destruct (paddle_y_always_in_range 800 600 (sampleGame 400 5 0 0))
    as (Hupd & Hptr & _).
  - simpl; lra.
  - simpl; lra.
  - destruct (Hupd eq_refl eq_refl) as [Hl Hr].
    destruct (Hptr 1000000 0 300 ltac:(lra)) as [Hm _].
    destruct (Hptr (-1000000) 0 300 ltac:(lra)) as [_ Ht].
    split; [exact Hl|]. split; [exact Hr|]. split; [exact Hm|exact Ht].
Defined.

(** The floor holds for the reflection rule on the concrete match. *)
Lemma floor_on_sample :
  2.5 <= Rabs (Ball.vx (ball (reflectFromPaddle LeftSide (sampleGame 41 (-9) 0 0)))) /\
  2.5 <= Rabs (Ball.vx (ball (reflectFromPaddle RightSide (sampleGame 759 9 0 0)))).
Proof.
  destruct (bounce_keeps_horizontal_floor 800 (sampleGame 41 (-9) 0 0)
              (sampleGame_geometry _ _ _ _)) as [Hfloor _].
  split; apply Hfloor.
Defined.

(** Serves of the concrete match, whose random source draws one half. *)
Lemma serve_on_sample :
  0 < Ball.vx (ball (resetBall 800 600 1 (sampleGame 400 5 3 2))) /\
  Ball.vx (ball (resetBall 800 600 (-1) (sampleGame 400 5 3 2))) < 0.
Proof.
  destruct (serve_direction_and_angle 800 600 (sampleGame 400 5 3 2))
    as (_ & (Hr & _) & (Hl & _)).
  - simpl; lra.
  - split; assumption.
Defined.

(** A point for the right side on the concrete match: the ball at
    x = -10 creeps right at one half a frame and is still out at -9.5. *)
Lemma point_on_sample :
  let s := sampleGame (-10) (1 / 2) 0 0 in
  computerScore (update 800 600 s) = 1%nat /\
  playerScore (update 800 600 s) = 0%nat /\
  Ball.x (ball (update 800 600 s)) = 800 / 2 /\
  0 < Ball.vx (ball (update 800 600 s)).
Proof.
  cbv zeta.
  destruct (exit_scores_once_and_serves 800 600 (sampleGame (-10) (1 / 2) 0 0)
              (sampleGame_geometry _ _ _ _)) as [Hleft _].
  - lra.
  - simpl; lra.
  - reflexivity.
  - reflexivity.
  - destruct Hleft as (Hc & Hp & Hserve).
    + simpl; lra.
    + simpl; lra.
    + destruct Hserve as (Hx & _ & Hvx).
      * unfold WIN_SCORE; simpl; lia.
      * repeat split; assumption.
Defined.

(** [start] called at 3 to 2 serves at 10.75, not at the base speed 9. *)
Lemma start_at_three_two :
  Ball.speed (ball (start 800 600 (sampleGame 400 9 3 2))) = 10.75 /\
  Ball.speed (ball (start 800 600 (sampleGame 400 9 3 2))) <> 9.
Proof.
  destruct (start_serves_at_previous_scores 800 600 (sampleGame 400 9 3 2)
              (sampleGame_geometry _ _ _ _)) as [Hspeed _].
  - lra.
  - assert (E : 9 + Rmin (INR (3 + 2)) 12 * 0.35 = 10.75).
    { unfold Rmin. simpl INR. destruct (Rle_dec _ _); lra. }
    simpl playerScore in Hspeed. simpl computerScore in Hspeed.
    rewrite E in Hspeed. rewrite Hspeed. split; [reflexivity|lra].
Defined.

(** * Further properties of the script *)

(** ** clamp and the collision test *)

Section Geometry.

Lemma clamp_low (v a b : R) : a <= b -> v <= a -> clamp v a b = a.
Proof.
  intros. unfold clamp, Rmax, Rmin.
  destruct (Rle_dec b v); destruct (Rle_dec a _); lra.
Qed.

Lemma clamp_high (v a b : R) : a <= b -> b <= v -> clamp v a b = b.
Proof.
  intros. unfold clamp, Rmax, Rmin.
  destruct (Rle_dec b v); destruct (Rle_dec a _); lra.
Qed.

Lemma clamp_inside (v a b : R) : a <= v <= b -> clamp v a b = v.
Proof.
  intros. unfold clamp, Rmax, Rmin.
  destruct (Rle_dec b v); destruct (Rle_dec a _); lra.
Qed.

Lemma clamp_inverted (v a b : R) : b < a -> clamp v a b = a.
Proof.
  intros. unfold clamp, Rmax, Rmin.
  destruct (Rle_dec b v); destruct (Rle_dec a _); lra.
Qed.

(** X1.  [clamp] by cases: below the range it gives the lower bound, above it
    the upper bound, inside it the value itself; with the bounds the wrong
    way round it gives the first bound whatever the value; and clamping
    twice is clamping once. *)
Theorem clamp_by_cases (v a b : R) :
  (a <= b -> v <= a -> clamp v a b = a) /\
  (a <= b -> b <= v -> clamp v a b = b) /\
  (a <= v <= b -> clamp v a b = v) /\
  (b < a -> clamp v a b = a) /\
  clamp (clamp v a b) a b = clamp v a b.
Proof.
  split; [apply clamp_low|]. split; [apply clamp_high|].
  split; [apply clamp_inside|]. split; [apply clamp_inverted|].
  destruct (Rle_dec a b) as [Hab|Hba].
  - apply clamp_inside, clamp_bounds, Hab.
  - rewrite (clamp_inverted v) by lra. apply clamp_inverted. lra.
Qed.

(** [clamp] never reverses the order of two values. *)
Lemma clamp_monotone (v w a b : R) : v <= w -> clamp v a b <= clamp w a b.
Proof.
  intros Hvw. unfold clamp, Rmax, Rmin.
  destruct (Rle_dec b v); destruct (Rle_dec b w);
    repeat (match goal with |- context [Rle_dec ?x ?y] => destruct (Rle_dec x y) end);
    lra.
Qed.

(** Clamping moves a value no further from a point of the range. *)
Lemma clamp_towards (v y a b : R) :
  a <= y <= b -> Rabs (clamp v a b - y) <= Rabs (v - y).
Proof.
  intros Hy. unfold clamp, Rmax, Rmin, Rabs.
  destruct (Rle_dec b v); destruct (Rle_dec a _);
    repeat (match goal with |- context [Rcase_abs ?x] => destruct (Rcase_abs x) end);
    lra.
Qed.

Lemma beyond_radius (d e r : R) :
  0 <= r -> r < d \/ d < - r -> r * r < d * d + e * e.
Proof.
  intros Hr [H|H]; pose proof (Rle_0_sqr e) as He; unfold Rsqr in He.
  - assert (r * r < d * d) by (apply Rmult_le_0_lt_compat; lra). lra.
  - assert (r * r < (- d) * (- d)) by (apply Rmult_le_0_lt_compat; lra).
    replace (d * d) with ((- d) * (- d)) by ring. lra.
Qed.

(** A ball whose centre is inside the rectangle collides. *)
Lemma collision_when_inside (p : Paddle.t) (s : Game) :
  Paddle.x p <= Ball.x (ball s) <= Paddle.x p + Paddle.width p ->
  Paddle.y p <= Ball.y (ball s) <= Paddle.y p + Paddle.height p ->
  paddleCollision p s = true.
Proof.
  intros Hx Hy. unfold paddleCollision. apply Rleb_true.
  rewrite (clamp_inside (Ball.x (ball s))) by exact Hx.
  rewrite (clamp_inside (Ball.y (ball s))) by exact Hy.
  pose proof (Rle_0_sqr (Ball.radius (ball s))) as Hsq. unfold Rsqr in Hsq.
  lra.
Qed.

(** X2.  The collision test on a paddle of non-negative size and a ball of
    non-negative radius: a ball whose centre is inside the paddle's
    rectangle collides; so does one whose centre is exactly one radius
    off the right or the left face, level with the paddle; a ball whose
    centre is more than one radius outside the rectangle on any side does
    not. *)
Theorem paddleCollision_near_and_far (p : Paddle.t) (s : Game) :
  0 <= Paddle.width p -> 0 <= Paddle.height p -> 0 <= Ball.radius (ball s) ->
  let b := ball s in
  let level := Paddle.y p <= Ball.y b <= Paddle.y p + Paddle.height p in
  (Paddle.x p <= Ball.x b <= Paddle.x p + Paddle.width p -> level ->
   paddleCollision p s = true) /\
  (Ball.x b = Paddle.x p + Paddle.width p + Ball.radius b -> level ->
   paddleCollision p s = true) /\
  (Ball.x b = Paddle.x p - Ball.radius b -> level ->
   paddleCollision p s = true) /\
  (Ball.x b < Paddle.x p - Ball.radius b \/
   Paddle.x p + Paddle.width p + Ball.radius b < Ball.x b \/
   Ball.y b < Paddle.y p - Ball.radius b \/
   Paddle.y p + Paddle.height p + Ball.radius b < Ball.y b ->
   paddleCollision p s = false).
Proof.
  intros Hw Hh Hr b level. subst b level. unfold paddleCollision.
  set (b := ball s) in *. set (r := Ball.radius b) in *.
  repeat split.
  - intros Hx Hy. fold (paddleCollision p s). apply collision_when_inside; assumption.
  - intros Hx Hy. apply Rleb_true.
    rewrite (clamp_high (Ball.x b)) by lra.
    rewrite (clamp_inside (Ball.y b)) by exact Hy.
    rewrite Hx. nra.
  - intros Hx Hy. apply Rleb_true.
    rewrite (clamp_low (Ball.x b)) by lra.
    rewrite (clamp_inside (Ball.y b)) by exact Hy.
    rewrite Hx. nra.
  - intros Hfar. apply Rleb_false.
    assert (Hcx : Paddle.x p <= clamp (Ball.x b) (Paddle.x p) (Paddle.x p + Paddle.width p)
                  <= Paddle.x p + Paddle.width p) by (apply clamp_bounds; lra).
    assert (Hcy : Paddle.y p <= clamp (Ball.y b) (Paddle.y p) (Paddle.y p + Paddle.height p)
                  <= Paddle.y p + Paddle.height p) by (apply clamp_bounds; lra).
    set (cx := clamp (Ball.x b) _ _) in *. set (cy := clamp (Ball.y b) _ _) in *.
    destruct Hfar as [H|[H|[H|H]]].
    + apply beyond_radius; [exact Hr|right; lra].
    + apply beyond_radius; [exact Hr|left; lra].
    + rewrite Rplus_comm. apply beyond_radius; [exact Hr|right; lra].
    + rewrite Rplus_comm. apply beyond_radius; [exact Hr|left; lra].
Qed.

End Geometry.

(** ** How the paddles move in a frame *)

Section PaddleMotion.

Variables WIDTH HEIGHT : R.


Lemma Rabs_bound_inv (v m : R) : Rabs v <= m -> - m <= v <= m.
Proof. unfold Rabs. destruct (Rcase_abs v); lra. Qed.






End PaddleMotion.

(** ** The ball between the walls *)

Section Walls.

Variables WIDTH HEIGHT : R.

Lemma wallCollision_between (t : Game) :
  2 * Ball.radius (ball t) <= HEIGHT ->
  between_walls HEIGHT (ball (wallCollision HEIGHT t)).
Proof.
  intros Hr. unfold wallCollision, between_walls.
  destruct (Rle_dec _ _); [|destruct (Rle_dec _ _)]; simpl; lra.
Qed.

Lemma paddleBounce_height (t : Game) :
  Ball.y (ball (paddleBounce t)) = Ball.y (ball t).
Proof.
  unfold paddleBounce.
  destruct (_ && _); [|destruct (_ && _)]; cbv zeta; try reflexivity;
    match goal with |- context [reflectFromPaddle ?d ?u] =>
      destruct (reflectFromPaddle_velocity d u) as (_ & _ & -> & _) end;
    reflexivity.
Qed.

Lemma resetBall_between (d : R) (t : Game) :
  2 * Ball.radius (ball t) <= HEIGHT ->
  between_walls HEIGHT (ball (resetBall WIDTH HEIGHT d t)).
Proof.
  intros Hr. unfold between_walls, resetBall, Math_random.
  destruct (Req_dec_T d 0); simpl; lra.
Qed.

Lemma scoreCheck_between (t : Game) :
  2 * Ball.radius (ball t) <= HEIGHT ->
  between_walls HEIGHT (ball t) ->
  between_walls HEIGHT (ball (scoreCheck WIDTH HEIGHT t)).
Proof.
  intros Hr Hb. unfold scoreCheck.
  destruct (Rlt_dec _ _); [|destruct (Rlt_dec _ _)]; cbv zeta; try exact Hb;
    (destruct (_ <=? _)%nat; [exact Hb|apply resetBall_between; exact Hr]).
Qed.

Lemma running_update_between (s : Game) :
  2 * Ball.radius (ball s) <= HEIGHT ->
  paused s = false -> gameOver s = false ->
  between_walls HEIGHT (ball (update WIDTH HEIGHT s)).
Proof.
  intros Hr Hp Ho. rewrite update_unfold, Hp, Ho. cbn [orb].
  destruct (physics_same HEIGHT s) as [_ _ _ _ _ _ _ Erad _].
  apply scoreCheck_between; [rewrite Erad; exact Hr|].
  unfold between_walls. rewrite Erad. unfold physics.
  rewrite paddleBounce_height.
  set (t := moveBall _).
  pose proof (wallCollision_between t) as Hw.
  destruct (wallCollision_same HEIGHT t) as [_ _ _ _ _ _ _ Et _].
  unfold between_walls in Hw. rewrite Et in Hw. apply Hw. exact Hr.
Qed.

Lemma update_between (s : Game) :
  2 * Ball.radius (ball s) <= HEIGHT ->
  between_walls HEIGHT (ball s) ->
  between_walls HEIGHT (ball (update WIDTH HEIGHT s)).
Proof.
  intros Hr Hb.
  destruct (paused s) eqn:Hp; [rewrite update_when_paused; assumption|].
  destruct (gameOver s) eqn:Ho; [rewrite update_when_over; assumption|].
  apply running_update_between; assumption.
Qed.

(** X5.  The ball never leaves through the top or the bottom: when the
    playfield is at least one ball high, a frame that runs leaves the
    ball's centre between radius and HEIGHT - radius, wherever the ball
    was; and no event of the program takes it out of that band. *)
Theorem ball_stays_between_walls (s : Game) :
  2 * Ball.radius (ball s) <= HEIGHT ->
  (paused s = false -> gameOver s = false ->
   between_walls HEIGHT (ball (update WIDTH HEIGHT s))) /\
  (forall e, between_walls HEIGHT (ball s) ->
   between_walls HEIGHT (ball (handle WIDTH HEIGHT e s))).
Proof.
  intros Hr. split; [apply running_update_between; exact Hr|].
  intros e Hb. destruct e; simpl.
  - apply update_between; assumption.
  - unfold keydown.
    repeat (match goal with |- context [String.eqb ?a ?b] => destruct (String.eqb a b) end);
      exact Hb.
  - unfold keyup.
    repeat (match goal with |- context [String.eqb ?a ?b] => destruct (String.eqb a b) end);
      exact Hb.
  - exact Hb.
  - exact Hb.
  - unfold start, loop. cbv zeta.
    pose proof (resetBall_between 0 s Hr) as Hreset.
    assert (Hrad : Ball.radius (ball (resetBall WIDTH HEIGHT 0 s)) = Ball.radius (ball s)).
    { rewrite resetBall_random. reflexivity. }
    apply update_between; simpl; [rewrite Hrad; exact Hr|exact Hreset].
  - apply resetBall_between, Hr.
Qed.

(** X6.  A wall bounce turns the ball back into the playfield.  From a
    position between the walls, after the translation and the wall test:
    the horizontal velocity and the magnitude of the vertical one are
    unchanged; a ball found at or above the top wall is put on the wall
    and does not move up any more; one found at or below the bottom wall
    is put on that wall and does not move down any more. *)
Theorem wall_bounce_turns_ball_inward (s : Game) :
  between_walls HEIGHT (ball s) ->
  let m := moveBall s in
  let t := wallCollision HEIGHT m in
  let r := Ball.radius (ball s) in
  Ball.vx (ball t) = Ball.vx (ball s) /\
  Rabs (Ball.vy (ball t)) = Rabs (Ball.vy (ball s)) /\
  (Ball.y (ball m) - r <= 0 ->
   Ball.y (ball t) = r /\ 0 <= Ball.vy (ball t)) /\
  (0 < Ball.y (ball m) - r -> HEIGHT <= Ball.y (ball m) + r ->
   Ball.y (ball t) = HEIGHT - r /\ Ball.vy (ball t) <= 0) /\
  (0 < Ball.y (ball m) - r -> Ball.y (ball m) + r < HEIGHT -> t = m).
Proof.
  intros [Hlo Hhi]. cbv zeta. unfold wallCollision, moveBall.
  cbn [ball set_ball Ball.x Ball.y Ball.radius Ball.vx Ball.vy
       Ball.set_x Ball.set_y Ball.set_vy].
  set (r := Ball.radius (ball s)) in *.
  destruct (Rle_dec (Ball.y (ball s) + Ball.vy (ball s) - r) 0) as [Htop|Htop];
    [|destruct (Rle_dec HEIGHT (Ball.y (ball s) + Ball.vy (ball s) + r)) as [Hbot|Hbot]];
    cbn [ball set_ball Ball.x Ball.y Ball.radius Ball.vx Ball.vy
         Ball.set_x Ball.set_y Ball.set_vy];
    repeat split; intros; try reflexivity; try lra;
    try (apply Rabs_Ropp).
Qed.

End Walls.

(** ** Scores, scoreboard and the final message *)

Section Scores.

Variables WIDTH HEIGHT : R.

Lemma physics_board (s : Game) :
  playerScoreEl (physics HEIGHT s) = playerScoreEl s /\
  computerScoreEl (physics HEIGHT s) = computerScoreEl s.
Proof.
  unfold physics, paddleBounce, reflectFromPaddle, wallCollision.
  repeat (match goal with
          | |- context [if ?c then _ else _] => destruct c
          end; cbv zeta); split; reflexivity.
Qed.

Lemma resetBall_board (d : R) (s : Game) :
  playerScoreEl (resetBall WIDTH HEIGHT d s) = playerScoreEl s /\
  computerScoreEl (resetBall WIDTH HEIGHT d s) = computerScoreEl s.
Proof.
  unfold resetBall, Math_random. destruct (Req_dec_T d 0); split; reflexivity.
Qed.

(** What the score check does, by cases. *)
Lemma scoreCheck_cases (t : Game) :
  scoreCheck WIDTH HEIGHT t = t \/
  (scoreCheck WIDTH HEIGHT t
   = endGame false (updateScoreboard (set_computerScore (S (computerScore t)) t)) /\
   (WIN_SCORE <= S (computerScore t))%nat) \/
  (scoreCheck WIDTH HEIGHT t
   = resetBall WIDTH HEIGHT 1
       (updateScoreboard (set_computerScore (S (computerScore t)) t)) /\
   (S (computerScore t) < WIN_SCORE)%nat) \/
  (scoreCheck WIDTH HEIGHT t
   = endGame true (updateScoreboard (set_playerScore (S (playerScore t)) t)) /\
   (WIN_SCORE <= S (playerScore t))%nat) \/
  (scoreCheck WIDTH HEIGHT t
   = resetBall WIDTH HEIGHT (-1)
       (updateScoreboard (set_playerScore (S (playerScore t)) t)) /\
   (S (playerScore t) < WIN_SCORE)%nat).
Proof.
  unfold scoreCheck.
  destruct (Rlt_dec _ _); [|destruct (Rlt_dec _ _)]; cbv zeta.
  - match goal with |- context [(WIN_SCORE <=? ?n)%nat] =>
      destruct (WIN_SCORE <=? n)%nat eqn:Hwin end.
    + apply Nat.leb_le in Hwin. right; left. split; [reflexivity|exact Hwin].
    + apply Nat.leb_gt in Hwin. right; right; left. split; [reflexivity|exact Hwin].
  - match goal with |- context [(WIN_SCORE <=? ?n)%nat] =>
      destruct (WIN_SCORE <=? n)%nat eqn:Hwin end.
    + apply Nat.leb_le in Hwin. right; right; right; left.
      split; [reflexivity|exact Hwin].
    + apply Nat.leb_gt in Hwin. right; right; right; right.
      split; [reflexivity|exact Hwin].
  - left; reflexivity.
Qed.

(** X7.  A frame awards at most one point: the score pair after [update] is
    the pair before, or has exactly one of the two scores raised by
    one. *)
Theorem frame_awards_at_most_one_point (s : Game) :
  let s' := update WIDTH HEIGHT s in
  (playerScore s' = playerScore s /\ computerScore s' = computerScore s) \/
  (playerScore s' = S (playerScore s) /\ computerScore s' = computerScore s) \/
  (playerScore s' = playerScore s /\ computerScore s' = S (computerScore s)).
Proof.
  cbv zeta. rewrite update_unfold.
  destruct (paused s || gameOver s); [left; split; reflexivity|].
  destruct (physics_same HEIGHT s) as [_ _ Epl Eco _ _ _ _ _].
  destruct (scoreCheck_cases (physics HEIGHT s))
    as [->|[[-> _]|[[-> _]|[[-> _]|[-> _]]]]].
  - left. split; assumption.
  - right; right. simpl. split; congruence.
  - right; right.
    match goal with |- context [resetBall _ _ ?d ?t] =>
      destruct (resetBall_flags WIDTH HEIGHT d t) as (_ & _ & -> & -> & _) end.
    simpl. split; congruence.
  - right; left. simpl. split; congruence.
  - right; left.
    match goal with |- context [resetBall _ _ ?d ?t] =>
      destruct (resetBall_flags WIDTH HEIGHT d t) as (_ & _ & -> & -> & _) end.
    simpl. split; congruence.
Qed.

Lemma scores_sound_update (s : Game) :
  scores_sound s -> scores_sound (update WIDTH HEIGHT s).
Proof.
  intros (Hp & Hc & Hover & Hbp & Hbc). rewrite update_unfold.
  destruct (paused s || gameOver s) eqn:Hrun;
    [repeat split; assumption|].
  apply orb_false_iff in Hrun. destruct Hrun as [_ Ho].
  assert (Hlt : (playerScore s < WIN_SCORE)%nat /\ (computerScore s < WIN_SCORE)%nat).
  { split; apply Nat.nle_gt; intros Hge;
      [rewrite (Hover (or_introl Hge)) in Ho|rewrite (Hover (or_intror Hge)) in Ho];
      discriminate. }
  destruct Hlt as [Hpl Hcl].
  destruct (physics_same HEIGHT s) as [_ Ego Epl Eco _ _ _ _ _].
  destruct (physics_board s) as [Ebp Ebc].
  unfold scores_sound, scoreboard_current.
  destruct (scoreCheck_cases (physics HEIGHT s))
    as [->|[[-> Hw]|[[-> Hw]|[[-> Hw]|[-> Hw]]]]].
  - rewrite Epl, Eco, Ego, Ebp, Ebc. repeat split; assumption.
  - simpl. rewrite Epl, Eco in *. repeat split; intros; try reflexivity; lia.
  - match goal with |- context [resetBall _ _ ?d ?t] =>
      destruct (resetBall_flags WIDTH HEIGHT d t) as (_ & -> & -> & -> & _);
      destruct (resetBall_board d t) as (-> & ->) end.
    simpl. rewrite Epl, Eco in *.
    repeat split; try reflexivity; try lia; try (intros [?|?]; lia).
  - simpl. rewrite Epl, Eco in *. repeat split; intros; try reflexivity; lia.
  - match goal with |- context [resetBall _ _ ?d ?t] =>
      destruct (resetBall_flags WIDTH HEIGHT d t) as (_ & -> & -> & -> & _);
      destruct (resetBall_board d t) as (-> & ->) end.
    simpl. rewrite Epl, Eco in *.
    repeat split; try reflexivity; try lia; try (intros [?|?]; lia).
Qed.

Lemma scores_sound_resetBall (d : R) (s : Game) :
  scores_sound s -> scores_sound (resetBall WIDTH HEIGHT d s).
Proof.
  unfold scores_sound, scoreboard_current.
  destruct (resetBall_flags WIDTH HEIGHT d s) as (_ & -> & -> & -> & _).
  destruct (resetBall_board d s) as (-> & ->). tauto.
Qed.

Lemma scores_sound_handle (e : Event) (s : Game) :
  scores_sound s -> scores_sound (handle WIDTH HEIGHT e s).
Proof.
  intros Hs. destruct e; simpl.
  - apply scores_sound_update, Hs.
  - unfold keydown.
    repeat (match goal with |- context [String.eqb ?a ?b] => destruct (String.eqb a b) end);
      exact Hs.
  - unfold keyup.
    repeat (match goal with |- context [String.eqb ?a ?b] => destruct (String.eqb a b) end);
      exact Hs.
  - exact Hs.
  - exact Hs.
  - unfold start, loop. cbv zeta. apply scores_sound_update.
    unfold scores_sound, scoreboard_current, WIN_SCORE. simpl.
    repeat split; try lia; try (intros [?|?]; lia).
  - apply scores_sound_resetBall, Hs.
Qed.

Lemma scores_sound_kickOff (msg : Message) (rnd : nat -> R) :
  scores_sound (kickOff WIDTH HEIGHT msg rnd).
Proof.
  unfold kickOff, scores_sound, scoreboard_current, updateScoreboard.
  cbn [playerScore computerScore playerScoreEl computerScoreEl gameOver set_scoreEls].
  destruct (resetBall_flags WIDTH HEIGHT 0 (created WIDTH HEIGHT msg rnd))
    as (_ & -> & -> & -> & _).
  unfold WIN_SCORE. simpl. repeat split; try lia; try (intros [?|?]; lia).
Qed.

(** X8.  In every state the program reaches from its kick-off, whatever the
    events: neither score exceeds 10, a score of 10 means the match is
    over, and the scoreboard shows the scores. *)
Theorem reachable_scores_are_sound (msg : Message) (rnd : nat -> R) (es : list Event) :
  let s := run WIDTH HEIGHT es (kickOff WIDTH HEIGHT msg rnd) in
  (playerScore s <= 10)%nat /\ (computerScore s <= 10)%nat /\
  (playerScore s = 10%nat \/ computerScore s = 10%nat -> matchState s = Over) /\
  playerScoreEl s = playerScore s /\ computerScoreEl s = computerScore s.
Proof.
  cbv zeta.
  assert (Hs : scores_sound (run WIDTH HEIGHT es (kickOff WIDTH HEIGHT msg rnd))).
  { generalize (scores_sound_kickOff msg rnd).
    generalize (kickOff WIDTH HEIGHT msg rnd).
    induction es as [|e es IH]; intros s Hs; simpl; [exact Hs|].
    apply IH, scores_sound_handle, Hs. }
  destruct Hs as (Hp & Hc & Hover & Hbp & Hbc). unfold WIN_SCORE in *.
  repeat split; try assumption.
  intros Hten. unfold matchState. rewrite Hover; [reflexivity|].
  destruct Hten as [->| ->]; [left|right]; lia.
Qed.

(** X9.  The message that ends a match names the winner.  When a frame turns
    a match that was not over (both scores below 10) into one that is,
    the match is paused, the message is shown, and it reads "You win!..."
    exactly when the left score is the one that reached 10. *)
Theorem final_message_names_winner (s : Game) :
  (playerScore s < WIN_SCORE)%nat -> (computerScore s < WIN_SCORE)%nat ->
  gameOver s = false -> gameOver (update WIDTH HEIGHT s) = true ->
  let s' := update WIDTH HEIGHT s in
  paused s' = true /\ hidden (messageEl s') = false /\
  ((playerScore s' = WIN_SCORE /\ computerScore s' = computerScore s /\
    textContent (messageEl s') = "You win! Refresh the page to play again."%string) \/
   (computerScore s' = WIN_SCORE /\ playerScore s' = playerScore s /\
    textContent (messageEl s') = "Computer wins. Refresh to try again."%string)).
Proof.
  intros Hpl Hcl Ho. cbv zeta. rewrite update_unfold, Ho.
  destruct (paused s); cbn [orb]; [intros Hover; congruence|].
  destruct (physics_same HEIGHT s) as [_ Ego Epl Eco _ _ _ _ _].
  destruct (scoreCheck_cases (physics HEIGHT s))
    as [->|[[-> Hw]|[[-> Hw]|[[-> Hw]|[-> Hw]]]]].
  - intros Hover. congruence.
  - intros _. simpl. rewrite Epl, Eco in *.
    repeat split. right. repeat split. lia.
  - match goal with |- context [resetBall _ _ ?d ?t] =>
      destruct (resetBall_flags WIDTH HEIGHT d t) as (_ & -> & _) end.
    simpl. intros Hover. congruence.
  - intros _. simpl. rewrite Epl, Eco in *.
    repeat split. left. repeat split. lia.
  - match goal with |- context [resetBall _ _ ?d ?t] =>
      destruct (resetBall_flags WIDTH HEIGHT d t) as (_ & -> & _) end.
    simpl. intros Hover. congruence.
Qed.

End Scores.

(** ** Keys, pause and the pointer *)

Section Input.

Variables WIDTH HEIGHT : R.

(** X10.  Arrow keys and unknown keys.  For every key code other than Space:
    releasing a key after pressing it leaves the state that releasing it
    alone would; pressing twice is pressing once; the press changes
    nothing but the table of held keys; and a code that is neither arrow
    is ignored by both listeners. *)
Theorem arrow_keys_press_and_release (code : string) (s : Game) :
  code <> "Space"%string ->
  keyup code (keydown code s) = keyup code s /\
  keydown code (keydown code s) = keydown code s /\
  keydown code s = set_keys (keys (keydown code s)) s /\
  (code <> "ArrowUp"%string -> code <> "ArrowDown"%string ->
   keydown code s = s /\ keyup code s = s).
Proof.
  intros Hspace. apply String.eqb_neq in Hspace.
  unfold keydown, keyup.
  destruct (String.eqb code "ArrowUp") eqn:Hup;
    [|destruct (String.eqb code "ArrowDown") eqn:Hdown; [|rewrite Hspace]].
  - apply String.eqb_eq in Hup.
    split; [reflexivity|]. split; [reflexivity|]. split; [reflexivity|].
    intros Hn _. contradiction.
  - apply String.eqb_eq in Hdown.
    split; [reflexivity|]. split; [reflexivity|]. split; [reflexivity|].
    intros _ Hn. contradiction.
  - split; [reflexivity|]. split; [reflexivity|].
    split; [destruct s; reflexivity|]. intros _ _. split; reflexivity.
Qed.

Lemma frames_while_paused (n : nat) (s : Game) :
  paused s = true -> run WIDTH HEIGHT (repeat Frame n) s = s.
Proof.
  intros Hp. induction n as [|n IH]; simpl; [reflexivity|].
  unfold loop. rewrite update_when_paused by exact Hp. exact IH.
Qed.

(** X11.  Pausing and resuming loses nothing.  From a state that is not paused,
    a Space press, any number of frames, and a second Space press leave
    every part of the game as it was - ball, paddles, scores, held keys,
    flags - and the message hidden and empty. *)
Theorem pause_then_resume_restores_game (n : nat) (s : Game) :
  paused s = false ->
  run WIDTH HEIGHT ([KeyDown "Space"] ++ repeat Frame n ++ [KeyDown "Space"]) s
  = set_messageEl (mkMessage true EmptyString) s.
Proof.
  intros Hp. unfold run. rewrite !fold_left_app. cbn [fold_left handle].
  fold (run WIDTH HEIGHT (repeat Frame n) (keydown "Space" s)).
  rewrite frames_while_paused.
  - destruct s. simpl in Hp. subst. reflexivity.
  - destruct (space_toggles s) as [-> _]. rewrite Hp. reflexivity.
Qed.

Lemma leftPaddle_moveComputer (t : Game) :
  leftPaddle (moveComputer HEIGHT t) = leftPaddle t.
Proof. reflexivity. Qed.

(** X12.  The pointer positions the paddle.  For a canvas shown with a non-zero
    height: a touch move does what a mouse move does; the paddle's centre
    is put on the pointer whenever that keeps the paddle on the screen;
    the last move wins over earlier ones; an unscaled canvas (shown at its
    own height) uses the pointer's offset from the canvas top as it is;
    and the next frame leaves the paddle there when no arrow key is
    held. *)
Theorem pointer_positions_paddle (clientY rectTop rectHeight : R) (s : Game) :
  rectHeight <> 0 -> Paddle.height (leftPaddle s) <= HEIGHT ->
  let my := pointerY HEIGHT clientY rectTop rectHeight in
  let h := Paddle.height (leftPaddle s) in
  let s' := mousemove HEIGHT clientY rectTop rectHeight s in
  touchmove HEIGHT clientY rectTop rectHeight s = s' /\
  (h / 2 <= my <= HEIGHT - h / 2 -> Paddle.y (leftPaddle s') + h / 2 = my) /\
  (forall a b c, mousemove HEIGHT clientY rectTop rectHeight
                   (mousemove HEIGHT a b c s) = s') /\
  (rectHeight = HEIGHT -> my = clientY - rectTop) /\
  (paused s = false -> gameOver s = false ->
   ArrowUp (keys s) = false -> ArrowDown (keys s) = false ->
   leftPaddle (update WIDTH HEIGHT s') = leftPaddle s').
Proof.
  intros Hrect Hfit. cbv zeta. split; [reflexivity|]. split; [|split; [|split]].
  - intros Hin. unfold mousemove, pointerY in *.
    cbn [leftPaddle set_leftPaddle Paddle.y Paddle.set_y].
    rewrite clamp_inside; lra.
  - intros a b c. unfold mousemove. destruct s; reflexivity.
  - intros ->. unfold pointerY. field. exact Hrect.
  - intros Hp Ho Hup Hdown.
    set (s' := mousemove HEIGHT clientY rectTop rectHeight s).
    destruct (update_paddles WIDTH HEIGHT s' Hp Ho) as [-> _].
    rewrite leftPaddle_moveComputer.
    unfold movePlayer. cbv zeta.
    change (keys s') with (keys s). rewrite Hup, Hdown.
    cbn [leftPaddle set_leftPaddle].
    assert (Hin : 0 <= Paddle.y (leftPaddle s')
                  <= HEIGHT - Paddle.height (leftPaddle s')).
    { unfold s', mousemove. cbn [leftPaddle set_leftPaddle Paddle.y Paddle.set_y Paddle.height].
      apply clamp_bounds. lra. }
    rewrite clamp_inside by exact Hin.
    destruct (leftPaddle s'); reflexivity.
Qed.

(** X13.  [start] does not revive a finished match: called when the game is
    over it zeroes the scores and centres the ball, but the match stays
    over and the simulation step still changes nothing. *)
Theorem start_does_not_revive (s : Game) :
  gameOver s = true ->
  let s' := start WIDTH HEIGHT s in
  matchState s' = Over /\
  playerScore s' = 0%nat /\ computerScore s' = 0%nat /\
  Ball.x (ball s') = WIDTH / 2 /\ Ball.y (ball s') = HEIGHT / 2 /\
  update WIDTH HEIGHT s' = s'.
Proof.
  intros Ho. cbv zeta. unfold start, loop. cbv zeta.
  set (t := updateScoreboard _).
  assert (Hto : gameOver t = true).
  { unfold t. simpl. destruct (resetBall_flags WIDTH HEIGHT 0 s) as (_ & -> & _).
    exact Ho. }
  rewrite !(update_when_over WIDTH HEIGHT t Hto).
  unfold matchState. rewrite Hto.
  repeat split; try reflexivity.
  - unfold t. cbn [ball updateScoreboard set_scoreEls set_computerScore set_playerScore].
    rewrite resetBall_random. reflexivity.
  - unfold t. cbn [ball updateScoreboard set_scoreEls set_computerScore set_playerScore].
    rewrite resetBall_random. reflexivity.
Qed.

End Input.

(** ** Serves and the speed of play *)

Section Speed.

Variables WIDTH HEIGHT : R.

(** The ball a reset leaves, for the three documented directions. *)
Lemma resetBall_shape (d : R) (s : Game) :
  d = 1 \/ d = -1 \/ d = 0 ->
  exists dir, (dir = 1 \/ dir = -1) /\
    ball (resetBall WIDTH HEIGHT d s)
    = Ball.mk (WIDTH / 2) (HEIGHT / 2) (Ball.radius (ball s))
        (serveSpeed (playerScore s) (computerScore s))
        (dir * serveSpeed (playerScore s) (computerScore s)
             * cos (serveAngle (random s 0%nat)))
        (serveSpeed (playerScore s) (computerScore s)
             * sin (serveAngle (random s 0%nat))).
Proof.
  intros [->|[->| ->]].
  - exists 1. split; [left; reflexivity|]. apply resetBall_directed. lra.
  - exists (-1). split; [right; reflexivity|]. apply resetBall_directed. lra.
  - rewrite resetBall_random. cbv zeta.
    destruct (Rlt_dec (random s 1%nat) 0.5).
    + exists (-1). split; [right; reflexivity|reflexivity].
    + exists 1. split; [left; reflexivity|reflexivity].
Qed.

Lemma serveSpeed_monotone (p c p' c' : nat) :
  (p + c <= p' + c')%nat -> serveSpeed p c <= serveSpeed p' c'.
Proof.
  intros Hle. apply le_INR in Hle. unfold serveSpeed, Rmin.
  destruct (Rle_dec _ _); destruct (Rle_dec _ _); lra.
Qed.

Lemma serveSpeed_capped (p c : nat) :
  (12 <= p + c)%nat -> serveSpeed p c = 13.2.
Proof.
  intros Hle. apply le_INR in Hle. simpl INR at 1 in Hle.
  unfold serveSpeed, Rmin. destruct (Rle_dec _ _); lra.
Qed.

(** X14.  The speed of a serve.  After a reset in one of the documented
    directions (1, -1, or 0 for a random side) the [speed] field lies
    between 9 and 13.2, is 9 at a combined score of 0 and 13.2 from a
    combined score of 12 on, and never falls when the combined score
    grows. *)
Theorem serve_speed_range_and_growth (d : R) (s : Game) :
  d = 1 \/ d = -1 \/ d = 0 ->
  let b := ball (resetBall WIDTH HEIGHT d s) in
  9 <= Ball.speed b <= 13.2 /\
  ((playerScore s + computerScore s = 0)%nat -> Ball.speed b = 9) /\
  ((12 <= playerScore s + computerScore s)%nat -> Ball.speed b = 13.2) /\
  (forall s2,
     (playerScore s + computerScore s <= playerScore s2 + computerScore s2)%nat ->
     Ball.speed b <= Ball.speed (ball (resetBall WIDTH HEIGHT d s2))).
Proof.
  intros Hd. cbv zeta.
  destruct (resetBall_shape d s Hd) as (dir & Hdir & ->).
  pose proof (serveSpeed_bounds (playerScore s) (computerScore s)) as Hv.
  cbn [Ball.speed].
  split; [exact Hv|split; [|split]].
  - intros Hzero. unfold serveSpeed, Rmin. rewrite Hzero. simpl INR.
    destruct (Rle_dec _ _); lra.
  - apply serveSpeed_capped.
  - intros s2 Hle. destruct (resetBall_shape d s2 Hd) as (dir2 & _ & ->).
    cbn [Ball.speed]. apply serveSpeed_monotone, Hle.
Qed.

(** Within 45 degrees of the horizontal the cosine is at least 0.7. *)
Lemma cos_serve_bound (u : R) : 0 <= u < 1 -> 0.7 <= cos (serveAngle u).
Proof.
  intros Hu. pose proof (serveAngle_bounds u Hu) as Ha.
  destruct (sin_within_cos (serveAngle u) ltac:(lra)) as [Hpos Hsin].
  pose proof (sin_cos_square (serveAngle u)) as Hsq.
  apply Rabs_bound_inv in Hsin. nra.
Qed.

(** X15.  A serve with a random side.  With the first draw of the random source
    in [0, 1): the ball goes left when the second draw is below one half
    and right otherwise; the reset uses up exactly two draws, and a reset
    with a given side exactly one. *)
Theorem random_serve_follows_second_draw (s : Game) :
  0 <= random s 0%nat < 1 ->
  let b := ball (resetBall WIDTH HEIGHT 0 s) in
  (random s 1%nat < 0.5 -> Ball.vx b < 0) /\
  (0.5 <= random s 1%nat -> 0 < Ball.vx b) /\
  (forall n, random (resetBall WIDTH HEIGHT 0 s) n = random s (S (S n))) /\
  (forall d n, d <> 0 -> random (resetBall WIDTH HEIGHT d s) n = random s (S n)).
Proof.
  intros Hu. cbv zeta. rewrite resetBall_random. cbv zeta. cbn [Ball.vx].
  pose proof (cos_serve_bound _ Hu) as Hcos.
  pose proof (serveSpeed_bounds (playerScore s) (computerScore s)) as Hv.
  repeat split.
  - intros Hlow. destruct (Rlt_dec _ _); [nra|lra].
  - intros Hhigh. destruct (Rlt_dec _ _); [lra|nra].
  - intros k. unfold resetBall, Math_random.
    destruct (Req_dec_T 0 0); [reflexivity|contradiction].
  - intros d k Hd. unfold resetBall, Math_random.
    destruct (Req_dec_T d 0); [contradiction|reflexivity].
Qed.

(** *** The ball never stalls *)

Lemma lively_resetBall (d : R) (s : Game) :
  d = 1 \/ d = -1 \/ d = 0 -> fairDraws (random s) ->
  lively (resetBall WIDTH HEIGHT d s).
Proof.
  intros Hd Hfair. unfold lively.
  assert (Hrnd : fairDraws (random (resetBall WIDTH HEIGHT d s))).
  { unfold resetBall, Math_random.
    destruct (Req_dec_T d 0); simpl; intros k; apply Hfair. }
  split; [exact Hrnd|].
  destruct (resetBall_shape d s Hd) as (dir & Hdir & ->).
  pose proof (serveSpeed_bounds (playerScore s) (computerScore s)) as Hv.
  pose proof (cos_serve_bound _ (Hfair 0%nat)) as Hcos.
  cbn [Ball.vx]. destruct Hdir as [->| ->].
  - rewrite Rabs_right; nra.
  - rewrite Rabs_left; nra.
Qed.

Lemma paddleBounce_keeps_floor (t : Game) :
  2.5 <= Rabs (Ball.vx (ball t)) ->
  2.5 <= Rabs (Ball.vx (ball (paddleBounce t))).
Proof.
  intros Hvx. unfold paddleBounce.
  destruct (_ && _); [|destruct (_ && _)]; cbv zeta; try exact Hvx;
    match goal with |- context [reflectFromPaddle ?d ?u] =>
      pose proof (reflect_floor d u) as Hfl end;
    unfold minHorizontal in Hfl; exact Hfl.
Qed.

Lemma lively_physics (s : Game) : lively s -> lively (physics HEIGHT s).
Proof.
  intros (Hfair & Hvx). unfold lively.
  destruct (physics_same HEIGHT s) as [_ _ _ _ _ _ Ernd _ _].
  rewrite Ernd. split; [exact Hfair|].
  unfold physics. apply paddleBounce_keeps_floor.
  destruct (before_paddles_ball HEIGHT s) as [_ Ev]. cbv zeta in Ev.
  rewrite Ev. exact Hvx.
Qed.

Lemma lively_update (s : Game) : lively s -> lively (update WIDTH HEIGHT s).
Proof.
  intros Hl. rewrite update_unfold.
  destruct (paused s || gameOver s); [exact Hl|].
  apply lively_physics in Hl.
  destruct (scoreCheck_cases WIDTH HEIGHT (physics HEIGHT s))
    as [->|[[-> _]|[[-> _]|[[-> _]|[-> _]]]]].
  - exact Hl.
  - exact Hl.
  - apply lively_resetBall; [left; reflexivity|apply Hl].
  - exact Hl.
  - apply lively_resetBall; [right; left; reflexivity|apply Hl].
Qed.

Lemma lively_handle (e : Event) (s : Game) :
  documented e -> lively s -> lively (handle WIDTH HEIGHT e s).
Proof.
  intros He Hl. destruct e; simpl.
  - apply lively_update, Hl.
  - unfold keydown.
    repeat (match goal with |- context [String.eqb ?a ?b] => destruct (String.eqb a b) end);
      exact Hl.
  - unfold keyup.
    repeat (match goal with |- context [String.eqb ?a ?b] => destruct (String.eqb a b) end);
      exact Hl.
  - exact Hl.
  - exact Hl.
  - unfold start, loop. cbv zeta. apply lively_update.
    exact (lively_resetBall 0 s (or_intror (or_intror eq_refl)) (proj1 Hl)).
  - apply lively_resetBall; [exact He|apply Hl].
Qed.

(** X16.  The ball never stalls.  From the kick-off with a random source
    whose draws all lie in [0, 1), after any sequence of events in which
    the console only calls [resetBall] with 1, -1 or 0, the ball's
    horizontal velocity is at least 2.5 in magnitude. *)
Theorem ball_never_stalls (msg : Message) (rnd : nat -> R) (es : list Event) :
  fairDraws rnd -> Forall documented es ->
  let s := run WIDTH HEIGHT es (kickOff WIDTH HEIGHT msg rnd) in
  2.5 <= Rabs (Ball.vx (ball s)).
Proof.
  intros Hfair Hes. cbv zeta.
  assert (Hk : lively (kickOff WIDTH HEIGHT msg rnd)).
  { unfold kickOff.
    exact (lively_resetBall 0 (created WIDTH HEIGHT msg rnd)
             (or_intror (or_intror eq_refl)) Hfair). }
  revert Hk. generalize (kickOff WIDTH HEIGHT msg rnd).
  induction Hes as [|e es He Hes IH]; intros s Hl; simpl.
  - apply Hl.
  - apply IH, lively_handle; assumption.
Qed.

End Speed.

(** ** A paddle hit within a frame *)

Section Hit.

Variables WIDTH HEIGHT : R.

(** X17.  A frame in which the ball hits a paddle awards no point.  On a
    playfield at least 32 wide, when the paddle test of a running frame
    finds a hit, the frame ends with the bounce: the scores are unchanged
    and the ball sits one radius off the face of the paddle it hit
    (x = 41 on the left, x = WIDTH - 41 on the right). *)
Theorem paddle_hit_awards_no_point (s : Game) :
  geometry WIDTH s -> 32 <= WIDTH ->
  paused s = false -> gameOver s = false ->
  let t := wallCollision HEIGHT (moveBall (moveComputer HEIGHT (movePlayer HEIGHT s))) in
  (Rltb (Ball.vx (ball t)) 0 && paddleCollision (leftPaddle t) t)
  || (Rltb 0 (Ball.vx (ball t)) && paddleCollision (rightPaddle t) t) = true ->
  let s' := update WIDTH HEIGHT s in
  s' = paddleBounce t /\
  playerScore s' = playerScore s /\ computerScore s' = computerScore s /\
  (Ball.x (ball s') = 41 \/ Ball.x (ball s') = WIDTH - 41).
Proof.
  intros Hg Hw Hp Ho t Hhit s'. subst s'.
  rewrite update_unfold, Hp, Ho. cbn [orb]. unfold physics. fold t.
  assert (Hgt : geometry WIDTH t).
  { apply geometry_wallCollision, geometry_moveBall, geometry_moveComputer,
      geometry_movePlayer, Hg. }
  destruct Hgt as (Hlx & Hlw & _ & Hrx & _ & _ & _ & Hrad).
  unfold PADDLE_WIDTH in *.
  assert (Hx :
    Ball.x (ball (paddleBounce t)) = 41 \/ Ball.x (ball (paddleBounce t)) = WIDTH - 41).
  { unfold paddleBounce.
    destruct (Rltb (Ball.vx (ball t)) 0 && paddleCollision (leftPaddle t) t).
    - cbv zeta.
      match goal with |- context [reflectFromPaddle ?d ?u] =>
        destruct (reflectFromPaddle_velocity d u) as (_ & -> & _) end.
      left; simpl; rewrite Hlx, Hlw, Hrad; lra.
    - cbn [orb] in Hhit. rewrite Hhit. cbv zeta.
      match goal with |- context [reflectFromPaddle ?d ?u] =>
        destruct (reflectFromPaddle_velocity d u) as (_ & -> & _) end.
      right; simpl; rewrite Hrx, Hrad; lra. }
  destruct (paddleBounce_same t) as [_ _ Epl Eco _ _ _ Er _].
  destruct (physics_same HEIGHT s) as [_ _ Epl' Eco' _ _ _ _ _].
  unfold physics in Epl', Eco'. fold t in Epl', Eco'.
  rewrite scoreCheck_inside
    by (rewrite Er, Hrad; destruct Hx as [-> | ->]; lra).
  split; [reflexivity|]. split; [exact Epl'|]. split; [exact Eco'|]. exact Hx.
Qed.

End Hit.

(** ** The queue of loop calls *)

Section Queue.

Variables WIDTH HEIGHT : R.

Lemma update_not_over (g : Game) :
  gameOver (update WIDTH HEIGHT g) = false -> gameOver g = false.
Proof.
  intros Hn. destruct (gameOver g) eqn:Ho; [|reflexivity].
  rewrite (update_when_over WIDTH HEIGHT g Ho) in Hn. congruence.
Qed.

Lemma loopHost_iter (n : nat) (g : Game) (k : nat) :
  game (Nat.iter n (loopHost WIDTH HEIGHT) (mkHost g k))
  = Nat.iter n (update WIDTH HEIGHT) g /\
  (gameOver (Nat.iter n (update WIDTH HEIGHT) g) = false ->
   pending (Nat.iter n (loopHost WIDTH HEIGHT) (mkHost g k)) = (k + n)%nat) /\
  (gameOver g = true ->
   Nat.iter n (loopHost WIDTH HEIGHT) (mkHost g k) = mkHost g k).
Proof.
  induction n as [|n (IHg & IHp & IHo)]; rewrite ?Nat.iter_succ.
  - repeat split. intros _. simpl. lia.
  - remember (Nat.iter n (loopHost WIDTH HEIGHT) (mkHost g k)) as hn eqn:Ehn.
    split; [|split].
    + unfold loopHost. cbn [game]. rewrite IHg. reflexivity.
    + intros Hn. unfold loopHost. cbn [game pending]. rewrite IHg, Hn.
      rewrite (IHp (update_not_over _ Hn)). lia.
    + intros Ho. rewrite (IHo Ho). unfold loopHost. cbn [game pending].
      rewrite (update_when_over WIDTH HEIGHT g Ho), Ho. reflexivity.
Qed.

Lemma update_iter_paused (n : nat) (g : Game) :
  paused g = true -> Nat.iter n (update WIDTH HEIGHT) g = g.
Proof.
  intros Hp. induction n as [|n IH]; [reflexivity|].
  rewrite Nat.iter_succ, IH. apply update_when_paused, Hp.
Qed.

(** X18.  An animation frame runs every queued call of [loop]: the game after
    the frame is [update] applied once per queued call; as long as the
    game is not over, each call queues its successor, so the queue keeps
    its length - also while the game is paused; once the game is over the
    frame changes nothing and leaves the queue empty.  A console call of
    [start] runs [loop] once more and, unless the game is over, queues one
    more call. *)
Theorem animation_frame_runs_the_queue (h : Host) :
  let h' := animationFrame WIDTH HEIGHT h in
  game h' = Nat.iter (pending h) (update WIDTH HEIGHT) (game h) /\
  (gameOver (game h') = false -> pending h' = pending h) /\
  (gameOver (game h) = true -> game h' = game h /\ pending h' = 0%nat) /\
  game (startHost WIDTH HEIGHT h) = start WIDTH HEIGHT (game h) /\
  (gameOver (game (startHost WIDTH HEIGHT h)) = false ->
   pending (startHost WIDTH HEIGHT h) = S (pending h)).
Proof.
  cbv zeta. unfold animationFrame.
  destruct (loopHost_iter (pending h) (game h) 0) as (Hg & Hp & Ho).
  split; [exact Hg|]. split; [|split; [|split]].
  - intros Hn. rewrite Hg in Hn. rewrite (Hp Hn). reflexivity.
  - intros Hover. rewrite (Ho Hover). split; reflexivity.
  - reflexivity.
  - unfold startHost, loopHost. cbn [game pending]. intros ->. reflexivity.
Qed.

(** X19.  A pause and a resume add a loop.  From a running game: the first
    Space press queues nothing, and the frames that follow change nothing
    but keep the queue as long as it was; the second Space press queues
    one more call of [loop]; so every later frame applies [update] once
    more than the frames before the pause did. *)
Theorem pause_and_resume_add_a_loop (h : Host) :
  paused (game h) = false -> gameOver (game h) = false ->
  let h1 := keydownHost "Space" h in
  let h2 := animationFrame WIDTH HEIGHT h1 in
  let h3 := keydownHost "Space" h2 in
  pending h1 = pending h /\
  game h2 = game h1 /\ pending h2 = pending h /\
  game h3 = set_messageEl (mkMessage true EmptyString) (game h) /\
  pending h3 = S (pending h) /\
  game (animationFrame WIDTH HEIGHT h3)
  = Nat.iter (S (pending h)) (update WIDTH HEIGHT) (game h3).
Proof.
  intros Hp Ho. cbv zeta.
  assert (H1 : keydownHost "Space" h
               = mkHost (keydown "Space" (game h)) (pending h)).
  { unfold keydownHost. simpl String.eqb. cbv zeta.
    destruct (space_toggles (game h)) as (-> & _). rewrite Hp. reflexivity. }
  rewrite H1.
  assert (Hp1 : paused (keydown "Space" (game h)) = true).
  { destruct (space_toggles (game h)) as (-> & _). rewrite Hp. reflexivity. }
  assert (Ho1 : gameOver (keydown "Space" (game h)) = false).
  { destruct (space_toggles (game h)) as (_ & -> & _). exact Ho. }
  destruct (loopHost_iter (pending h) (keydown "Space" (game h)) 0) as (Hg & Hq & _).
  rewrite (update_iter_paused _ _ Hp1) in Hg, Hq.
  assert (H2 : animationFrame WIDTH HEIGHT (mkHost (keydown "Space" (game h)) (pending h))
               = mkHost (keydown "Space" (game h)) (pending h)).
  { unfold animationFrame. cbn [game pending].
    specialize (Hq Ho1). simpl in Hq.
    destruct (Nat.iter _ _ _) as [g q]. cbn [game pending] in *. congruence. }
  rewrite H2. cbn [game pending].
  assert (Hback : keydown "Space" (keydown "Space" (game h))
                  = set_messageEl (mkMessage true EmptyString) (game h)).
  { destruct (game h). simpl in Hp. subst. reflexivity. }
  assert (H3 : keydownHost "Space" (mkHost (keydown "Space" (game h)) (pending h))
               = mkHost (set_messageEl (mkMessage true EmptyString) (game h))
                        (S (pending h))).
  { unfold keydownHost. simpl String.eqb. cbv zeta. cbn [game pending].
    rewrite Hback. cbn [paused gameOver set_messageEl]. rewrite Hp, Ho. reflexivity. }
  rewrite H3. cbn [game pending].
  repeat split.
  unfold animationFrame. cbn [game pending].
  apply loopHost_iter.
Qed.

End Queue.

(** ** The picture *)

Section Picture.

Variables WIDTH HEIGHT : R.

Lemma dashFuel_enough : HEIGHT - 20 <= 22 * INR (dashFuel HEIGHT).
Proof.
  unfold dashFuel. pose proof (pos_INR (Z.to_nat (up HEIGHT))) as Hpos.
  destruct (Rle_dec HEIGHT 0) as [Hneg|Hposh]; [lra|].
  destruct (archimed HEIGHT) as [Hup _].
  assert (Hz : (0 <= up HEIGHT)%Z).
  { apply le_IZR. simpl. lra. }
  rewrite INR_IZR_INZ, Z2Nat.id by exact Hz. lra.
Qed.

(** The dashes the loop draws from the one with index [j] on, given fuel
    for the rest of the way. *)
Lemma dashesFrom_closed (fuel j : nat) :
  HEIGHT - 10 - (10 + 22 * INR j) <= 22 * INR fuel ->
  exists n,
    dashesFrom HEIGHT fuel (WIDTH / 2 - 1) (10 + 22 * INR j)
    = map (dash WIDTH) (seq j n) /\
    (forall k, (j <= k)%nat ->
       ((k < j + n)%nat <-> 10 + 22 * INR k < HEIGHT - 10)).
Proof.
  revert j. induction fuel as [|fuel IH]; intros j Hfuel.
  - exists 0%nat. split; [reflexivity|]. intros k Hk. split; [lia|].
    intros Hlt. apply le_INR in Hk. simpl in Hfuel. lra.
  - cbn [dashesFrom]. destruct (Rlt_dec _ _) as [Hin|Hout].
    + destruct (IH (S j)) as (n & Hlist & Hchar).
      { rewrite !S_INR in *. lra. }
      exists (S n). split.
      * cbn [seq map]. unfold dash at 1. unfold segH, gap. f_equal.
        rewrite <- Hlist. f_equal. rewrite S_INR. ring.
      * intros k Hk. destruct (Nat.eq_dec k j) as [->|Hne].
        -- split; [intros _; exact Hin|lia].
        -- rewrite <- (Hchar k) by lia. lia.
    + exists 0%nat. split; [reflexivity|]. intros k Hk. split; [lia|].
      intros Hlt. apply le_INR in Hk. lra.
Qed.

(** X20.  What [draw] puts on the canvas: it clears the playfield, draws the
    dashes of the centre line - one at each height 10, 32, 54, ... that
    is below HEIGHT - 10, and no other - then the two paddles as rounded
    rectangles and the ball as a full circle, each where the game state
    has it. *)
Theorem draw_shows_the_state (s : Game) :
  exists n,
    draw WIDTH HEIGHT s
    = [ClearRect 0 0 WIDTH HEIGHT; FillStyle "#1e90ff"]
      ++ map (dash WIDTH) (seq 0 n)
      ++ [FillStyle "#e6f1ff"]
      ++ roundedRect (Paddle.x (leftPaddle s)) (Paddle.y (leftPaddle s))
                     (Paddle.width (leftPaddle s)) (Paddle.height (leftPaddle s)) 4
      ++ roundedRect (Paddle.x (rightPaddle s)) (Paddle.y (rightPaddle s))
                     (Paddle.width (rightPaddle s)) (Paddle.height (rightPaddle s)) 4
      ++ [BeginPath; FillStyle "#ffd166";
          Arc (Ball.x (ball s)) (Ball.y (ball s)) (Ball.radius (ball s)) 0 (PI * 2);
          Fill; ClosePath] /\
    (forall k, (k < n)%nat <-> 10 + 22 * INR k < HEIGHT - 10).
Proof.
  destruct (dashesFrom_closed (dashFuel HEIGHT) 0) as (n & Hlist & Hchar).
  { pose proof dashFuel_enough. simpl. lra. }
  exists n. split.
  - unfold draw. replace 10 with (10 + 22 * INR 0) at 1 by (simpl; ring).
    rewrite Hlist. reflexivity.
  - intros k. apply (Hchar k). lia.
Qed.

End Picture.

(** ** The further properties on the concrete match *)

(** The left paddle of the concrete match, and balls in and out of it. *)
Lemma collision_on_sample :
  paddleCollision (leftPaddle (sampleGame 26 0 0 0)) (sampleGame 26 0 0 0) = true /\
  paddleCollision (leftPaddle (sampleGame 41 0 0 0)) (sampleGame 41 0 0 0) = true /\
  paddleCollision (leftPaddle (sampleGame 42 0 0 0)) (sampleGame 42 0 0 0) = false.
Proof.
  destruct (paddleCollision_near_and_far (leftPaddle (sampleGame 26 0 0 0))
              (sampleGame 26 0 0 0)) as (Hin & _); try (simpl; lra).
  destruct (paddleCollision_near_and_far (leftPaddle (sampleGame 41 0 0 0))
              (sampleGame 41 0 0 0)) as (_ & Hface & _); try (simpl; lra).
  destruct (paddleCollision_near_and_far (leftPaddle (sampleGame 42 0 0 0))
              (sampleGame 42 0 0 0)) as (_ & _ & _ & Hfar); try (simpl; lra).
  split; [apply Hin; simpl; lra|]. split; [apply Hface; simpl; lra|].
  apply Hfar. right; left. simpl; lra.
Defined.



(** The ball of the concrete match stays between the walls. *)
Lemma walls_on_sample :
  between_walls 600 (ball (update 800 600 (sampleGame 400 5 0 0))).
Proof.
  destruct (ball_stays_between_walls 800 600 (sampleGame 400 5 0 0)) as (Hrun & _).
  - simpl; lra.
  - apply Hrun; reflexivity.
Defined.

(** Away from the walls, the wall test changes nothing. *)
Lemma wall_test_on_sample :
  wallCollision 600 (moveBall (sampleGame 400 5 0 0)) = moveBall (sampleGame 400 5 0 0).
Proof.
  destruct (wall_bounce_turns_ball_inward 600 (sampleGame 400 5 0 0))
    as (_ & _ & _ & _ & Hfree).
  - unfold between_walls; simpl; lra.
  - apply Hfree; simpl; lra.
Defined.

(** At 0 to 9 the point that ends the match announces the computer. *)
Lemma final_message_on_sample :
  textContent (messageEl (update 800 600 (sampleGame (-10) 0 0 9)))
  = "Computer wins. Refresh to try again."%string.
Proof.
  destruct (final_message_names_winner 800 600 (sampleGame (-10) 0 0 9))
    as (_ & _ & [(Hp & _)|(_ & _ & Htext)]).
  - unfold WIN_SCORE; simpl; lia.
  - unfold WIN_SCORE; simpl; lia.
  - reflexivity.
  - destruct (update_exit_left 800 600 (sampleGame (-10) 0 0 9)
                (sampleGame_geometry _ _ _ _) eq_refl eq_refl) as (_ & _ & Hover & _).
    + simpl; lra.
    + simpl; lra.
    + apply Hover. unfold WIN_SCORE; simpl; lia.
  - exfalso.
    destruct (update_exit_left 800 600 (sampleGame (-10) 0 0 9)
                (sampleGame_geometry _ _ _ _) eq_refl eq_refl) as (_ & Epl & _).
    + simpl; lra.
    + simpl; lra.
    + rewrite Epl in Hp. discriminate.
  - exact Htext.
Defined.

(** Pressing and releasing the up arrow. *)
Lemma arrow_up_on_sample :
  keyup "ArrowUp" (keydown "ArrowUp" (sampleGame 400 5 0 0))
  = keyup "ArrowUp" (sampleGame 400 5 0 0).
Proof.
  destruct (arrow_keys_press_and_release "ArrowUp" (sampleGame 400 5 0 0)) as (H & _).
  - discriminate.
  - exact H.
Defined.

(** Pause, three frames, resume. *)
Lemma pause_on_sample :
  run 800 600 ([KeyDown "Space"] ++ repeat Frame 3 ++ [KeyDown "Space"])
      (sampleGame 400 5 0 0)
  = set_messageEl (mkMessage true EmptyString) (sampleGame 400 5 0 0).
Proof.
  apply (pause_then_resume_restores_game 800 600 3 (sampleGame 400 5 0 0)).
  reflexivity.
Defined.

(** The pointer at 300 of an unscaled canvas centres the paddle there. *)
Lemma pointer_on_sample :
  Paddle.y (leftPaddle (mousemove 600 300 0 600 (sampleGame 400 5 0 0))) + 90 / 2
  = pointerY 600 300 0 600.
Proof.
  destruct (pointer_positions_paddle 800 600 300 0 600 (sampleGame 400 5 0 0))
    as (_ & Hcentre & _).
  - lra.
  - simpl; lra.
  - apply Hcentre. unfold pointerY; simpl. lra.
Defined.

(** [start] on the concrete match once it is over. *)
Lemma start_on_finished_sample :
  matchState (start 800 600 (endGame false (sampleGame 400 5 0 10))) = Over.
Proof.
  destruct (start_does_not_revive 800 600 (endGame false (sampleGame 400 5 0 10)))
    as (H & _).
  - reflexivity.
  - exact H.
Defined.

(** A random-side serve at 3 to 2. *)
Lemma serve_speed_on_sample :
  9 <= Ball.speed (ball (resetBall 800 600 0 (sampleGame 400 5 3 2))) <= 13.2.
Proof.
  destruct (serve_speed_range_and_growth 800 600 0 (sampleGame 400 5 3 2)) as (H & _).
  - right; right; reflexivity.
  - exact H.
Defined.

(** The concrete random source draws one half twice: the serve goes right. *)
Lemma random_serve_on_sample :
  0 < Ball.vx (ball (resetBall 800 600 0 (sampleGame 400 5 0 0))).
Proof.
  destruct (random_serve_follows_second_draw 800 600 (sampleGame 400 5 0 0))
    as (_ & Hright & _).
  - simpl; lra.
  - apply Hright. simpl; lra.
Defined.

(** Two frames and a console reset after a kick-off with a fair source. *)
Lemma never_stalls_on_sample :
  let s := run 800 600 [Frame; PongResetBall 1; Frame]
             (kickOff 800 600 (mkMessage true EmptyString) (fun _ => 1 / 2)) in
  2.5 <= Rabs (Ball.vx (ball s)).
Proof.
  apply (ball_never_stalls 800 600 (mkMessage true EmptyString) (fun _ => 1 / 2)
           [Frame; PongResetBall 1; Frame]).
  - intros n. lra.
  - repeat constructor.
Defined.

Lemma sample_hit :
  let s := sampleGame 35 (-5) 0 0 in
  let t := wallCollision 600 (moveBall (moveComputer 600 (movePlayer 600 s))) in
  (Rltb (Ball.vx (ball t)) 0 && paddleCollision (leftPaddle t) t)
  || (Rltb 0 (Ball.vx (ball t)) && paddleCollision (rightPaddle t) t) = true.
Proof.
  cbv zeta.
  set (m := moveBall (moveComputer 600 (movePlayer 600 (sampleGame 35 (-5) 0 0)))).
  assert (Hm : ball m = Ball.mk (35 + -5) (300 + 0) 9 9 (-5) 0) by reflexivity.
  assert (Hl : leftPaddle m = Paddle.mk 20 (clamp 255 0 (600 - 90)) 12 90 0 None)
    by reflexivity.
  assert (Ht : wallCollision 600 m = m).
  { unfold wallCollision. rewrite Hm. cbn [Ball.y Ball.radius].
    destruct (Rle_dec _ _); [lra|]. destruct (Rle_dec _ _); [lra|]. reflexivity. }
  rewrite Ht, Hm. cbn [Ball.vx].
  assert (Rltb (-5) 0 = true) as -> by (apply Rltb_true; lra).
  rewrite collision_when_inside; [reflexivity| |]; rewrite Hm, Hl;
    cbn [Paddle.x Paddle.y Paddle.width Paddle.height Ball.x Ball.y].
  - lra.
  - rewrite clamp_inside by lra. lra.
Qed.

(** The ball of the concrete match hits the left paddle: no point. *)
Lemma hit_on_sample :
  let s' := update 800 600 (sampleGame 35 (-5) 0 0) in
  playerScore s' = 0%nat /\ computerScore s' = 0%nat /\
  (Ball.x (ball s') = 41 \/ Ball.x (ball s') = 800 - 41).
Proof.
  destruct (paddle_hit_awards_no_point 800 600 (sampleGame 35 (-5) 0 0)
              (sampleGame_geometry _ _ _ _)) as (_ & Hp & Hc & Hx).
  - lra.
  - reflexivity.
  - reflexivity.
  - exact sample_hit.
  - split; [exact Hp|]. split; [exact Hc|exact Hx].
Defined.

(** One queued loop becomes two after a pause and a resume. *)
Lemma queue_on_sample :
  let h := mkHost (sampleGame 400 5 0 0) 1 in
  pending (keydownHost "Space"
             (animationFrame 800 600 (keydownHost "Space" h))) = 2%nat.
Proof.
  destruct (pause_and_resume_add_a_loop 800 600 (mkHost (sampleGame 400 5 0 0) 1))
    as (_ & _ & _ & _ & H & _).
  - reflexivity.
  - reflexivity.
  - exact H.
Defined.
